(** * Spinel arena: the agentic tool-use loop of [POST /api/chat]

    A shallow embedding of
    - [src/src/lib/storage.ts] (the sandbox part: [getOrCreateSandbox],
      [executeCode]),
    - [src/src/app/api/chat/route.ts] ([POST] and the [ReadableStream]
      start callback that runs the agentic loop).

    Strings are Rocq [string]s whose characters are UTF-16 code units of
    the Latin-1 range; JavaScript truthiness of a string is "non-empty". *)

From stdpp Require Import base gmap strings list.
From Stdlib Require Import String Ascii.

Local Open Scope string_scope.

(* ------------------------------------------------------------------ *)
(** ** JavaScript string helpers *)

(** [!!s] for a string: only the empty string is falsy. *)
Definition truthy (s : string) : bool := negb (String.eqb s "").

(** [!!x] for a [string | null]. *)
Definition truthy_opt (o : option string) : bool :=
  match o with Some s => truthy s | None => false end.

(** The line feed ["\n"] of the JavaScript source. *)
Definition nl : string := String "010" "".

(** [Array.prototype.join]. *)
Fixpoint join (sep : string) (l : list string) : string :=
  match l with
  | [] => ""
  | [x] => x
  | x :: r => x ++ sep ++ join sep r
  end.

(** White space and line terminators of [String.prototype.trim] that
    lie in the Latin-1 range: TAB, LF, VT, FF, CR, SPACE, NBSP. *)
Definition is_js_ws (c : ascii) : bool :=
  let n := nat_of_ascii c in
  Nat.eqb n 9 || Nat.eqb n 10 || Nat.eqb n 11 || Nat.eqb n 12
  || Nat.eqb n 13 || Nat.eqb n 32 || Nat.eqb n 160.

Fixpoint drop_ws (l : list ascii) : list ascii :=
  match l with
  | [] => []
  | c :: r => if is_js_ws c then drop_ws r else l
  end.

(** [String.prototype.trim]. *)
Definition trim (s : string) : string :=
  string_of_list_ascii
    (rev (drop_ws (rev (drop_ws (list_ascii_of_string s))))).

Fixpoint uint_to_string (u : Decimal.uint) : string :=
  match u with
  | Decimal.Nil => ""
  | Decimal.D0 r => "0" ++ uint_to_string r
  | Decimal.D1 r => "1" ++ uint_to_string r
  | Decimal.D2 r => "2" ++ uint_to_string r
  | Decimal.D3 r => "3" ++ uint_to_string r
  | Decimal.D4 r => "4" ++ uint_to_string r
  | Decimal.D5 r => "5" ++ uint_to_string r
  | Decimal.D6 r => "6" ++ uint_to_string r
  | Decimal.D7 r => "7" ++ uint_to_string r
  | Decimal.D8 r => "8" ++ uint_to_string r
  | Decimal.D9 r => "9" ++ uint_to_string r
  end.

(** Template-literal interpolation of an array length. *)
Definition nat_to_string (n : nat) : string := uint_to_string (Nat.to_uint n).

(* ------------------------------------------------------------------ *)
(** ** [executeCode] (storage.ts, lines 144-173) *)

(** One element of [execution.results]; [result.png] is optional. *)
Record ExecResult := mkExecResult { png : option string }.

(** The [Execution] object resolved by [sandbox.runCode]; [exec_error]
    is [execution.error.value] when [execution.error] is set. *)
Record Execution := mkExecution {
  logs_stdout : list string;
  logs_stderr : list string;
  results : list ExecResult;
  exec_error : option string
}.

(** How the awaited [sandbox.runCode(code, {timeoutMs: 60_000})] settles:
    it resolves with an [Execution], or it rejects (timeout, network or
    harness fault) with an error whose [message] is given. *)
Inductive RunCode :=
  | Resolved (e : Execution)
  | Rejected (message : string).

(** The returned object [{ text, images, error }]. *)
Record ExecOutcome := mkOutcome {
  text : string;
  images : list string;
  error : option string
}.

Fixpoint collect_pngs (rs : list ExecResult) : list string :=
  match rs with
  | [] => []
  | r :: rs' =>
      match png r with
      | Some p => if truthy p then p :: collect_pngs rs' else collect_pngs rs'
      | None => collect_pngs rs'
      end
  end.

Definition executeCode (run : RunCode) : ExecOutcome :=
  match run with
  | Resolved execution =>
      let txt := join nl (logs_stdout execution)
                 ++ join nl (logs_stderr execution) in
      mkOutcome (trim txt) (collect_pngs (results execution))
                (exec_error execution)
  | Rejected msg =>
      mkOutcome "" [] (Some (if truthy msg then msg else "Execution failed"))
  end.

(* ------------------------------------------------------------------ *)
(** ** Streamed events and the result mapping (route.ts, lines 157-208) *)

(** The [{type, content}] frames written to the event stream. *)
Inductive Event :=
  | EvText (content : string)
  | EvCode (content : string)
  | EvOutput (content : string)
  | EvError (content : string)
  | EvImage (content : string)
  | EvDone.

(** The frames enqueued for one execution result, lines 158-181. *)
Definition result_events (result : ExecOutcome) : list Event :=
  ((if truthy (text result) then [EvOutput (text result)] else [])
  ++ (match error result with
      | Some e => if truthy e then [EvError e] else []
      | None => []
      end)
  ++ map EvImage (images result))%list.

(** [toolResultContent], lines 184-192. *)
Definition toolResultContent (result : ExecOutcome) : string :=
  join (nl ++ nl)
    (List.filter truthy
      [ if truthy (text result) then "Output:" ++ nl ++ text result
        else "";
        match error result with
        | Some e => if truthy e then "Error:" ++ nl ++ e else ""
        | None => ""
        end;
        if Nat.ltb 0 (List.length (images result))
        then "[" ++ nat_to_string (List.length (images result))
             ++ " plot(s) generated and displayed]"
        else "" ]).

Definition success_sentinel : string := "Code executed successfully.".

(** [toolResultContent || "Code executed successfully."], line 204. *)
Definition tool_result_text (result : ExecOutcome) : string :=
  let c := toolResultContent result in
  if truthy c then c else success_sentinel.

(* ------------------------------------------------------------------ *)
(** ** Conversation history *)

(** Content blocks of a model response ([response.content]). Blocks of
    other kinds are pushed to [assistantContent] and otherwise ignored. *)
Inductive Block :=
  | BText (t : string)
  | BToolUse (id : string) (code : string)
  | BOther.

(** Content blocks of a user message. *)
Inductive UserBlock :=
  | UText (t : string)
  | UToolResult (tool_use_id : string) (content : string).

(** A [MessageParam] as the model receives it. *)
Inductive Message :=
  | UserMsg (content : list UserBlock)
  | AssistantMsg (content : list Block).

(** An element of [currentMessages]. The message
    [{ role: "assistant", content: assistantContent }] holds the array
    [assistantContent] by reference: it is a location of the heap, and
    every later [assistantContent.push] is seen through it. *)
Inductive Entry :=
  | Value (m : Message)
  | AssistantRef (loc : nat).

Definition resolve (heap : gmap nat (list Block)) (e : Entry) : Message :=
  match e with
  | Value m => m
  | AssistantRef l => AssistantMsg (default [] (heap !! l))
  end.

(* ------------------------------------------------------------------ *)
(** ** The stream's state and its monad *)

Record St := mkSt {
  currentMessages : list Entry;
  heap : gmap nat (list Block);   (** the [assistantContent] arrays *)
  next_loc : nat;
  events : list Event;            (** frames enqueued, in order *)
  closed : bool;                  (** [controller.close()] was called *)
  model_calls : nat;              (** [anthropic.messages.create] calls *)
  code_runs : nat                 (** [executeCode] calls *)
}.

(** A promise settles with a value or rejects with an error message. *)
Inductive Res (A : Type) :=
  | Ok (a : A)
  | Throw (message : string).
Arguments Ok {A} a.
Arguments Throw {A} message.

(** State passing with exceptions: a thrown error keeps the effects
    (enqueued frames) performed before it. *)
Definition M (A : Type) := St -> St * Res A.

Definition ret {A} (a : A) : M A := fun s => (s, Ok a).

Definition bind {A B} (m : M A) (k : A -> M B) : M B :=
  fun s => match m s with
           | (s', Ok a) => k a s'
           | (s', Throw msg) => (s', Throw msg)
           end.

(** [try { m } catch (error) { h(error.message) }]. *)
Definition catch {A} (m : M A) (h : string -> M A) : M A :=
  fun s => match m s with
           | (s', Ok a) => (s', Ok a)
           | (s', Throw msg) => h msg s'
           end.

Declare Scope m_scope.
Notation "x <- m ;; k" := (bind m (fun x => k))
  (at level 100, m at next level, right associativity) : m_scope.
Notation "m ;; k" := (bind m (fun _ => k))
  (at level 100, right associativity) : m_scope.
Local Open Scope m_scope.

(** [controller.enqueue(encoder.encode(`data: ${JSON.stringify(ev)}\n\n`))]. *)
Definition emit (ev : Event) : M unit :=
  fun s => (mkSt (currentMessages s) (heap s) (next_loc s)
                 (events s ++ [ev])%list (closed s) (model_calls s)
                 (code_runs s), Ok tt).

Fixpoint emit_all (evs : list Event) : M unit :=
  match evs with
  | [] => ret tt
  | ev :: evs' => emit ev ;; emit_all evs'
  end.

(** [controller.close()]. *)
Definition close : M unit :=
  fun s => (mkSt (currentMessages s) (heap s) (next_loc s) (events s) true
                 (model_calls s) (code_runs s), Ok tt).

(** [const assistantContent = []]: a fresh array. *)
Definition new_array : M nat :=
  fun s => (mkSt (currentMessages s) (<[next_loc s := []]> (heap s))
                 (S (next_loc s)) (events s) (closed s) (model_calls s)
                 (code_runs s), Ok (next_loc s)).

(** [assistantContent.push(block)]. *)
Definition push (l : nat) (b : Block) : M unit :=
  fun s => (mkSt (currentMessages s)
                 (<[l := (default [] (heap s !! l) ++ [b])%list]> (heap s))
                 (next_loc s) (events s) (closed s) (model_calls s)
                 (code_runs s), Ok tt).

(** [currentMessages = [...currentMessages, ...es]]. *)
Definition append_messages (es : list Entry) : M unit :=
  fun s => (mkSt (currentMessages s ++ es)%list (heap s) (next_loc s)
                 (events s) (closed s) (model_calls s) (code_runs s), Ok tt).

Section Loop.

(** The model provider: the [k]-th call of the request, given the
    messages as serialised at that moment, answers with content blocks
    or rejects. *)
Variable model : nat -> list Message -> Res (list Block).

(** The sandbox backend: how the [k]-th [sandbox.runCode(code)] settles. *)
Variable runCode : nat -> string -> RunCode.

(** [await anthropic.messages.create({... messages: currentMessages })]. *)
Definition call_model : M (list Block) :=
  fun s =>
    let s' := mkSt (currentMessages s) (heap s) (next_loc s) (events s)
                   (closed s) (S (model_calls s)) (code_runs s) in
    (s', model (model_calls s) (map (resolve (heap s)) (currentMessages s))).

(** [await executeCode(sandbox, code)]: never rejects. *)
Definition run_code (code : string) : M ExecOutcome :=
  fun s =>
    (mkSt (currentMessages s) (heap s) (next_loc s) (events s) (closed s)
          (model_calls s) (S (code_runs s)),
     Ok (executeCode (runCode (code_runs s) code))).

(** One iteration of [for (const block of response.content)], lines
    131-210; [hasToolUse] is threaded through. *)
Definition process_block (l : nat) (hasToolUse : bool) (block : Block)
    : M bool :=
  push l block ;;
  match block with
  | BText t => emit (EvText t) ;; ret hasToolUse
  | BToolUse id code =>
      emit (EvCode code) ;;
      result <- run_code code ;;
      emit_all (result_events result) ;;
      append_messages
        [AssistantRef l;
         Value (UserMsg [UToolResult id (tool_result_text result)])] ;;
      ret true
  | BOther => ret hasToolUse
  end.

Fixpoint process_blocks (l : nat) (hasToolUse : bool) (bs : list Block)
    : M bool :=
  match bs with
  | [] => ret hasToolUse
  | b :: bs' => h <- process_block l hasToolUse b ;; process_blocks l h bs'
  end.

(** [while (maxIterations-- > 0) { ... }]: the counter is tested, then
    decremented; [break] when the response had no tool use. *)
Fixpoint agent_loop (maxIterations : nat) : M unit :=
  match maxIterations with
  | 0 => ret tt
  | S rest =>
      response <- call_model ;;
      l <- new_array ;;
      hasToolUse <- process_blocks l false response ;;
      if hasToolUse then agent_loop rest else ret tt
  end.

Definition maxIterations_init : nat := 10.

(** The [start(controller)] callback of the [ReadableStream], lines
    111-239. Saving the assistant message is fire-and-forget and leaves
    the stream untouched. *)
Definition start : M unit :=
  catch (agent_loop maxIterations_init ;; emit EvDone ;; close)
        (fun msg => emit (EvError msg) ;; close).

Definition init_state (messages : list Message) : St :=
  mkSt (map Value messages) ∅ 0 [] false 0 0.

(** The state of the stream once [start] has finished. *)
Definition run_stream (messages : list Message) : St :=
  fst (start (init_state messages)).

End Loop.

(* ------------------------------------------------------------------ *)
(** ** [POST] (route.ts, lines 54-255) *)

Inductive SandboxMode := vanilla | spinel.

Record UploadedFile := mkFile { file_name : string; file_content : string }.

(** The parsed request body. *)
Record Body := mkBody {
  messages : list Message;
  mode : SandboxMode;
  sessionId : string;
  files : option (list UploadedFile)
}.

(** What [POST] returns: the JSON error response of the outer [catch],
    or the event stream, given by the state its [start] callback ends in. *)
Inductive Response :=
  | JsonResponse (status : nat) (body : list (string * string))
  | StreamResponse (final : St).

Section Post.

Variable model : nat -> list Message -> Res (list Block).
Variable runCode : nat -> string -> RunCode.
(** [await request.json()]. *)
Variable request_json : Res Body.
(** [await getOrCreateSandbox(sessionId, mode)]. *)
Variable getOrCreateSandbox : string -> SandboxMode -> Res unit.
(** [await uploadFileToSandbox(sandbox, file.name, buffer)]. *)
Variable uploadFileToSandbox : string -> Res string.

(** The upload loop of lines 81-86: the first rejection is thrown. *)
Fixpoint upload_files (fs : list UploadedFile) : Res unit :=
  match fs with
  | [] => Ok tt
  | f :: fs' =>
      match uploadFileToSandbox (file_name f) with
      | Ok _ => upload_files fs'
      | Throw msg => Throw msg
      end
  end.

(** The session, user-message and file persistence calls are
    fire-and-forget, and [getSpinelSystemPrompt] falls back to a fixed
    text on any failure: neither throws, so neither is a step here. *)
Definition POST : Response :=
  let fail msg := JsonResponse 500 [("error", msg)] in
  match request_json with
  | Throw msg => fail msg
  | Ok body =>
      match getOrCreateSandbox (sessionId body) (mode body) with
      | Throw msg => fail msg
      | Ok _ =>
          match upload_files (default [] (files body)) with
          | Throw msg => fail msg
          | Ok _ => StreamResponse (run_stream model runCode (messages body))
          end
      end
  end.

End Post.

(* ------------------------------------------------------------------ *)
(** ** Chunks as the backend emits them *)

Inductive OutStream := Stdout | Stderr.

Definition chunks_of (st : OutStream) (log : list (OutStream * string))
    : list string :=
  map snd (List.filter (fun p => match fst p, st with
                                 | Stdout, Stdout | Stderr, Stderr => true
                                 | _, _ => false end) log).

(** The [Execution] the backend resolves with after emitting the chunks
    [log], in this order: [logs.stdout] and [logs.stderr] each keep the
    chunks of one stream in emission order. *)
Definition execution_of (log : list (OutStream * string))
    (rs : list ExecResult) (err : option string) : Execution :=
  mkExecution (chunks_of Stdout log) (chunks_of Stderr log) rs err.

(* ================================================================== *)
(** * Properties *)

(** ** Result mapping and summary *)

Lemma truthy_false_iff (s : string) : truthy s = false <-> s = "".
Proof.
  unfold truthy. destruct (String.eqb_spec s ""); simpl; split; congruence.
Qed.

Lemma truthy_true_iff (s : string) : truthy s = true <-> s <> "".
Proof.
  unfold truthy. destruct (String.eqb_spec s ""); simpl; split; congruence.
Qed.

Lemma result_events_shape (r : ExecOutcome) :
  result_events r =
    ((if truthy (text r) then [EvOutput (text r)] else [])
     ++ (if truthy_opt (error r) then [EvError (default "" (error r))] else [])
     ++ map EvImage (images r))%list.
Proof.
  unfold result_events, truthy_opt. destruct (error r); reflexivity.
Qed.

Lemma EvDone_not_in_result_events (r : ExecOutcome) :
  EvDone ∉ result_events r.
Proof.
  rewrite result_events_shape.
  rewrite list_elem_of_In, !in_app_iff, in_map_iff.
  intros [H | [H | [x [Hx _]]]]; [| | discriminate].
  - destruct (truthy (text r)); simpl in H; intuition discriminate.
  - destruct (truthy_opt (error r)); simpl in H; intuition discriminate.
Qed.

Definition b2n (b : bool) : nat := if b then 1 else 0.

(** C2 (amended). For one tool invocation the loop enqueues its [code]
    frame followed by exactly [result_events] of the outcome: one
    [output] frame iff the text is non-empty, one [error] frame iff the
    error is non-null and non-empty, then one [image] frame per image in
    order; their number is the sum of these counts. *)
Theorem tool_invocation_result_events
    (runCode : nat -> string -> RunCode) (l : nat) (h : bool)
    (id code : string) (s : St) :
  let r := executeCode (runCode (code_runs s) code) in
  events (fst (process_block runCode l h (BToolUse id code) s))
    = (events s ++ EvCode code :: result_events r)%list
  /\ result_events r =
       ((if truthy (text r) then [EvOutput (text r)] else [])
        ++ (if truthy_opt (error r) then [EvError (default "" (error r))]
            else [])
        ++ map EvImage (images r))%list
  /\ List.length (result_events r)
       = b2n (truthy (text r)) + b2n (truthy_opt (error r))
         + List.length (images r).
Proof.
  intros r. split; [| split].
  - unfold process_block, bind, push, emit, run_code, append_messages; simpl.
    fold r. generalize (result_events r) as evs. intros evs.
    assert (Hgen : forall st, events (fst (emit_all evs st))
                               = (events st ++ evs)%list
                    /\ snd (emit_all evs st) = Ok tt).
    { induction evs as [|ev evs IH]; intros st; simpl.
      - rewrite app_nil_r. auto.
      - unfold bind at 1, emit at 1. simpl.
        destruct (IH (mkSt (currentMessages st) (heap st) (next_loc st)
                   (events st ++ [ev])%list (closed st) (model_calls st)
                   (code_runs st))) as [H1 H2].
        split; [rewrite H1; simpl; rewrite <- app_assoc; reflexivity | exact H2]. }
    match goal with
    | |- context [emit_all evs ?st] =>
        destruct (Hgen st) as [H1 H2];
        destruct (emit_all evs st) as [st' res] eqn:E
    end.
    simpl in H1, H2. subst res. simpl. rewrite H1. simpl.
    rewrite <- app_assoc. reflexivity.
  - apply result_events_shape.
  - rewrite result_events_shape, !length_app, length_map.
    destruct (truthy (text r)), (truthy_opt (error r)); simpl; lia.
Qed.

(** C2 counterexample. An outcome with four images yields four frames,
    more than three; an outcome whose error is the empty string (a
    Python [raise ValueError()] has an empty [value]) is non-null yet
    yields no [error] frame. *)
Lemma tool_invocation_events_counterexample :
  List.length (result_events (mkOutcome "" ["a"; "b"; "c"; "d"] None)) = 4
  /\ error (mkOutcome "" [] (Some "")) <> None
  /\ result_events (mkOutcome "" [] (Some "")) = [].
Proof. split; [reflexivity | split; [discriminate | reflexivity]]. Qed.

Lemma filter_truthy_blocks (x y z : string) (bx by' bz : bool) :
  (bx = true -> x <> "") -> (by' = true -> y <> "") -> (bz = true -> z <> "") ->
  List.filter truthy [if bx then x else ""; if by' then y else "";
                      if bz then z else ""]
  = ((if bx then [x] else []) ++ (if by' then [y] else [])
     ++ (if bz then [z] else []))%list.
Proof.
  intros Hx Hy Hz.
  destruct bx, by', bz; simpl;
    repeat match goal with
    | H : true = true -> ?s <> "" |- _ =>
        specialize (H eq_refl); apply truthy_true_iff in H; rewrite H
    end; reflexivity.
Qed.

Lemma join_cons_nonempty (sep x : string) (l : list string) :
  x <> "" -> join sep (x :: l) <> "".
Proof.
  intros Hx. destruct x as [|c x']; [congruence|].
  destruct l; simpl; discriminate.
Qed.

(** The summary is the blank-line join of, in this order,
    the output block (text non-empty), the error block (error non-null
    and non-empty) and the image-count notice (at least one image); with
    no block it is the success sentinel, and it is never empty. *)
Theorem tool_result_summary (r : ExecOutcome) :
  let parts :=
    ((if truthy (text r) then [("Output:" ++ nl ++ text r)%string] else [])
     ++ (if truthy_opt (error r)
         then [("Error:" ++ nl ++ default "" (error r))%string] else [])
     ++ (if Nat.ltb 0 (List.length (images r))
         then [("[" ++ nat_to_string (List.length (images r))
               ++ " plot(s) generated and displayed]")%string] else []))%list in
  tool_result_text r =
    match parts with [] => success_sentinel | _ => join (nl ++ nl) parts end
  /\ (parts = [] <->
        text r = "" /\ truthy_opt (error r) = false /\ images r = [])
  /\ tool_result_text r <> "".
Proof.
  intros parts.
  assert (Hc : toolResultContent r = join (nl ++ nl) parts).
  { unfold toolResultContent, parts.
    replace (match error r with
             | Some e => if truthy e then "Error:" ++ nl ++ e else ""
             | None => "" end)
      with (if truthy_opt (error r) then "Error:" ++ nl ++ default "" (error r)
            else "")
      by (destruct (error r) as [e|]; simpl; [destruct (truthy e)|]; reflexivity).
    rewrite filter_truthy_blocks; [reflexivity | discriminate..]. }
  assert (Hparts : parts = [] <->
            text r = "" /\ truthy_opt (error r) = false /\ images r = []).
  { unfold parts.
    destruct (truthy (text r)) eqn:Et, (truthy_opt (error r)) eqn:Ee,
             (images r) eqn:Ei; simpl;
      rewrite ?truthy_false_iff in Et; rewrite ?truthy_true_iff in Et;
      split; intros H; try discriminate; try tauto;
      destruct H as (H1 & H2 & H3); try congruence. }
  unfold tool_result_text. rewrite Hc.
  destruct parts as [|p ps] eqn:Ep.
  - simpl. split; [reflexivity | split; [exact Hparts | discriminate]].
  - assert (Hne : join (nl ++ nl) (p :: ps) <> "").
    { apply join_cons_nonempty.
      assert (Hin : p ∈ parts) by (rewrite Ep; left).
      unfold parts in Hin. rewrite !elem_of_app in Hin.
      destruct (truthy (text r)), (truthy_opt (error r)),
               (Nat.ltb 0 (List.length (images r)));
        simpl in Hin; rewrite ?list_elem_of_In in Hin; simpl in Hin;
        intuition (subst; discriminate). }
    apply truthy_true_iff in Hne as Ht. rewrite Ht.
    split; [reflexivity | split; [exact Hparts |]].
    apply truthy_true_iff. exact Ht.
Qed.

(** ** [executeCode] *)

(** C5. A rejected [runCode] (timeout or harness fault) becomes an
    outcome with empty text, no image and a non-empty error; and running
    code from the loop always yields an outcome, never an exception. *)
Theorem executeCode_captures_faults
    (runCode : nat -> string -> RunCode) (code msg : string) (s : St) :
  (exists e, executeCode (Rejected msg) = mkOutcome "" [] (Some e)
             /\ e <> "")
  /\ snd (run_code runCode code s) = Ok (executeCode (runCode (code_runs s) code)).
Proof.
  split; [| reflexivity].
  simpl. destruct (truthy msg) eqn:E.
  - exists msg. split; [reflexivity|]. apply truthy_true_iff. exact E.
  - eexists. split; [reflexivity | discriminate].
Qed.

(** C9 counterexample. Standard error emitted before standard output
    still comes after it in the text. *)
Lemma captured_text_counterexample :
  let log := [(Stderr, "b"); (Stdout, "a")] in
  text (executeCode (Resolved (execution_of log [] None))) = "ab"
  /\ String.prefix (snd (hd (Stdout, "") log))
       (text (executeCode (Resolved (execution_of log [] None)))) = false.
Proof. split; reflexivity. Qed.

Lemma chunks_of_app (st : OutStream) (l1 l2 : list (OutStream * string)) :
  chunks_of st (l1 ++ l2) = (chunks_of st l1 ++ chunks_of st l2)%list.
Proof. unfold chunks_of. rewrite List.filter_app, map_app. reflexivity. Qed.

(** C9 (amended). The text is the newline-joined standard output chunks
    directly followed by the newline-joined standard error chunks, then
    trimmed; the relative emission order of the two streams does not
    matter (an output and an error chunk emitted in either order give
    the same text). *)
Theorem captured_text_by_stream
    (log log1 log2 : list (OutStream * string)) (a b : string)
    (rs : list ExecResult) (err : option string) :
  text (executeCode (Resolved (execution_of log rs err)))
    = trim (join nl (chunks_of Stdout log) ++ join nl (chunks_of Stderr log))
  /\ text (executeCode (Resolved
        (execution_of (log1 ++ [(Stderr, b); (Stdout, a)] ++ log2) rs err)))
     = text (executeCode (Resolved
        (execution_of (log1 ++ [(Stdout, a); (Stderr, b)] ++ log2) rs err))).
Proof.
  split; [reflexivity|].
  simpl. rewrite !chunks_of_app. reflexivity.
Qed.

(** ** The loop *)

(** [String.append] is [simpl never] under stdpp: its equations are
    used through conversion. *)
Lemma str_app_cons (c : ascii) (x y : string) :
  String c x ++ y = String c (x ++ y).
Proof. reflexivity. Qed.

Lemma str_app_assoc (x y z : string) : (x ++ y) ++ z = x ++ (y ++ z).
Proof.
  induction x as [|c x IH]; [reflexivity|].
  rewrite !str_app_cons, IH. reflexivity.
Qed.

Lemma str_app_nil_r (x : string) : x ++ "" = x.
Proof. induction x as [|c x IH]; [reflexivity|]. rewrite str_app_cons, IH. reflexivity. Qed.

Lemma join_contains (sep y : string) (l : list string) :
  In y l -> exists pre suf, join sep l = pre ++ y ++ suf.
Proof.
  induction l as [|x l IH]; simpl; [tauto|].
  intros [-> | Hin].
  - destruct l; [exists "", ""; simpl; rewrite str_app_nil_r; reflexivity|].
    exists "", (sep ++ join sep (s :: l)). reflexivity.
  - destruct (IH Hin) as (pre & suf & E).
    destruct l as [|z l]; [destruct Hin|].
    exists (x ++ sep ++ pre), suf. simpl in E |- *. rewrite E. rewrite ?str_app_assoc. reflexivity.
Qed.

Lemma emit_all_spec (evs : list Event) (s : St) :
  emit_all evs s =
    (mkSt (currentMessages s) (heap s) (next_loc s) (events s ++ evs)%list
          (closed s) (model_calls s) (code_runs s), Ok tt).
Proof.
  revert s. induction evs as [|ev evs IH]; intros s; simpl.
  - rewrite app_nil_r. destruct s; reflexivity.
  - unfold bind at 1. simpl. rewrite IH. simpl. rewrite <- app_assoc. reflexivity.
Qed.

(** The effect of one [tool_use] block, lines 142-209. *)
Lemma process_tool_use (runCode : nat -> string -> RunCode) (l : nat)
    (h : bool) (id code : string) (s : St) :
  let r := executeCode (runCode (code_runs s) code) in
  process_block runCode l h (BToolUse id code) s =
    (mkSt (currentMessages s
             ++ [AssistantRef l;
                 Value (UserMsg [UToolResult id (tool_result_text r)])])%list
          (<[l := (default [] (heap s !! l) ++ [BToolUse id code])%list]> (heap s))
          (next_loc s)
          (events s ++ EvCode code :: result_events r)%list
          (closed s) (model_calls s) (S (code_runs s)),
     Ok true).
Proof.
  intros r. unfold process_block, bind, push, emit, run_code.
  simpl. fold r. rewrite emit_all_spec. simpl.
  rewrite <- app_assoc. reflexivity.
Qed.

Definition is_tool_use (b : Block) : bool :=
  match b with BToolUse _ _ => true | _ => false end.

Definition has_tool_use (bs : list Block) : bool := existsb is_tool_use bs.

Section Invariants.

Variable model : nat -> list Message -> Res (list Block).
Variable runCode : nat -> string -> RunCode.

(** What every step of the loop preserves: frames are only appended and
    none of them is [done]; the stream stays open; messages are only
    appended; at most [n] model calls are made; and the only exceptions
    are those of the model. *)
Definition grows {A} (n : nat) (m : M A) : Prop :=
  forall s,
    (exists new, events (fst (m s)) = (events s ++ new)%list /\ EvDone ∉ new)
    /\ closed (fst (m s)) = closed s
    /\ (exists more,
          currentMessages (fst (m s)) = (currentMessages s ++ more)%list)
    /\ model_calls s <= model_calls (fst (m s)) <= model_calls s + n
    /\ (forall msg, snd (m s) = Throw msg ->
                    exists k ms, model k ms = Throw msg).

Lemma grows_ret {A} (a : A) : grows 0 (ret a).
Proof.
  intros s. simpl. split; [exists []; rewrite app_nil_r; split; [done | set_solver]|].
  split; [done|]. split; [exists []; by rewrite app_nil_r|]. split; [lia|].
  discriminate.
Qed.

Lemma grows_bind {A B} (n k : nat) (m : M A) (f : A -> M B) :
  grows n m -> (forall a, grows k (f a)) -> grows (n + k) (bind m f).
Proof.
  intros Hm Hf s. unfold bind.
  destruct (Hm s) as ((new & Hev & Hnd) & Hcl & (more & Hmsg) & Hcalls & Hthr).
  destruct (m s) as [s1 [a|msg]] eqn:E; simpl in *.
  - destruct (Hf a s1) as ((new' & Hev' & Hnd') & Hcl' & (more' & Hmsg')
                           & Hcalls' & Hthr').
    split; [exists (new ++ new')%list; split|].
    + rewrite Hev', Hev, app_assoc. reflexivity.
    + rewrite elem_of_app. tauto.
    + split; [congruence|]. split; [exists (more ++ more')%list;
        rewrite Hmsg', Hmsg, app_assoc; reflexivity|].
      split; [lia | exact Hthr'].
  - split; [exists new; split; assumption|].
    split; [assumption|]. split; [exists more; assumption|].
    split; [lia|]. intros msg' Hmsg'. injection Hmsg' as <-.
    apply (Hthr msg). reflexivity.
Qed.

Lemma grows_weaken {A} (n n' : nat) (m : M A) :
  n <= n' -> grows n m -> grows n' m.
Proof.
  intros Hle Hm s. destruct (Hm s) as (H1 & H2 & H3 & H4 & H5).
  repeat split; try assumption; lia.
Qed.

Ltac grows_prim :=
  intros s; simpl;
  (split; [first [exists []; rewrite app_nil_r; split; [done | set_solver]
               | idtac]|]);
  split; [done|]; split; [exists []; by rewrite app_nil_r|];
  split; [lia | discriminate].

Lemma grows_emit (ev : Event) : ev <> EvDone -> grows 0 (emit ev).
Proof.
  intros Hne s. simpl.
  split; [exists [ev]; split; [reflexivity | set_solver]|].
  split; [done|]. split; [exists []; by rewrite app_nil_r|].
  split; [lia | discriminate].
Qed.

Lemma grows_emit_all (evs : list Event) : EvDone ∉ evs -> grows 0 (emit_all evs).
Proof.
  intros Hnd s. rewrite emit_all_spec. simpl.
  split; [exists evs; split; [reflexivity | exact Hnd]|].
  split; [done|]. split; [exists []; by rewrite app_nil_r|].
  split; [lia | discriminate].
Qed.

Lemma grows_push (l : nat) (b : Block) : grows 0 (push l b).
Proof. grows_prim. Qed.

Lemma grows_new_array : grows 0 new_array.
Proof. grows_prim. Qed.

Lemma grows_run_code (code : string) : grows 0 (run_code runCode code).
Proof. grows_prim. Qed.

Lemma grows_append (es : list Entry) : grows 0 (append_messages es).
Proof.
  intros s. simpl.
  split; [exists []; rewrite app_nil_r; split; [done | set_solver]|].
  split; [done|]. split; [exists es; reflexivity|].
  split; [lia | discriminate].
Qed.

Lemma grows_call_model : grows 1 (call_model model).
Proof.
  intros s. unfold call_model. simpl.
  split; [exists []; rewrite app_nil_r; split; [done | set_solver]|].
  split; [done|]. split; [exists []; by rewrite app_nil_r|].
  split; [lia|]. intros msg Hmsg. eexists _, _. exact Hmsg.
Qed.

Lemma grows_process_block (l : nat) (h : bool) (b : Block) :
  grows 0 (process_block runCode l h b).
Proof.
  unfold process_block. apply (grows_bind 0 0); [apply grows_push | intros _].
  destruct b as [t | id code |].
  - apply (grows_bind 0 0); [apply grows_emit; discriminate | intros _; apply grows_ret].
  - apply (grows_bind 0 0); [apply grows_emit; discriminate | intros _].
    apply (grows_bind 0 0); [apply grows_run_code | intros r].
    apply (grows_bind 0 0);
      [apply grows_emit_all, EvDone_not_in_result_events | intros _].
    apply (grows_bind 0 0); [apply grows_append | intros _; apply grows_ret].
  - apply grows_ret.
Qed.

Lemma grows_process_blocks (l : nat) (h : bool) (bs : list Block) :
  grows 0 (process_blocks runCode l h bs).
Proof.
  revert h. induction bs as [|b bs IH]; intros h; simpl.
  - apply grows_ret.
  - apply (grows_bind 0 0); [apply grows_process_block | intros h'; apply IH].
Qed.

Lemma grows_agent_loop (n : nat) : grows n (agent_loop model runCode n).
Proof.
  induction n as [|n IH]; simpl.
  - apply grows_ret.
  - apply (grows_bind 1 (0 + (0 + n))); [apply grows_call_model | intros bs].
    apply grows_bind; [apply grows_new_array | intros l].
    apply grows_bind; [apply grows_process_blocks | intros h].
    destruct h; [exact IH | eapply grows_weaken; [| apply grows_ret]; lia].
Qed.

Lemma process_blocks_result (l : nat) (h : bool) (bs : list Block) (s : St) :
  snd (process_blocks runCode l h bs s) = Ok (h || has_tool_use bs).
Proof.
  revert h s. induction bs as [|b bs IH]; intros h s; simpl.
  - rewrite orb_false_r. reflexivity.
  - unfold bind at 1.
    assert (Hb : snd (process_block runCode l h b s) = Ok (h || is_tool_use b)).
    { destruct b as [t | id code |].
      - simpl. rewrite orb_false_r. reflexivity.
      - rewrite process_tool_use. simpl. rewrite orb_true_r. reflexivity.
      - simpl. rewrite orb_false_r. reflexivity. }
    destruct (process_block runCode l h b s) as [s1 r1]. simpl in Hb. subst r1.
    rewrite IH, orb_assoc. reflexivity.
Qed.

Lemma agent_loop_calls_model (n : nat) (s : St) :
  S (model_calls s) <= model_calls (fst (agent_loop model runCode (S n) s)).
Proof.
  simpl. unfold bind at 1, call_model.
  destruct (model (model_calls s) (map (resolve (heap s)) (currentMessages s)))
    as [bs|msg]; simpl; [|lia].
  match goal with
  | |- _ <= model_calls (fst (?m ?s1)) =>
      assert (Hg : grows (0 + (0 + n)) m)
  end.
  { apply grows_bind; [apply grows_new_array | intros l].
    apply grows_bind; [apply grows_process_blocks | intros h].
    destruct h; [apply grows_agent_loop | eapply grows_weaken; [| apply grows_ret]; lia]. }
  match goal with
  | |- _ <= model_calls (fst (_ ?s1)) => destruct (Hg s1) as (_ & _ & _ & Hc & _)
  end.
  simpl in Hc. lia.
Qed.

(** A model whose every answer asks for a tool keeps the loop running. *)
Lemma agent_loop_all_tool_use (n : nat) (s : St) :
  (forall k ms, exists bs, model k ms = Ok bs /\ has_tool_use bs = true) ->
  snd (agent_loop model runCode n s) = Ok tt
  /\ model_calls (fst (agent_loop model runCode n s)) = model_calls s + n.
Proof.
  intros Hm. revert s. induction n as [|n IH]; intros s; [simpl; split; [done | lia]|].
  assert (E : exists s2, agent_loop model runCode (S n) s = agent_loop model runCode n s2
                         /\ model_calls s2 = S (model_calls s)).
  { simpl. unfold bind at 1, call_model.
    destruct (Hm (model_calls s) (map (resolve (heap s)) (currentMessages s)))
      as (bs & Hbs & Htu).
    rewrite Hbs. simpl. unfold bind at 1, new_array. simpl. unfold bind at 1.
    match goal with
    | |- context [process_blocks runCode ?l false bs ?s1] =>
        pose proof (process_blocks_result l false bs s1) as Hr;
        destruct (grows_process_blocks l false bs s1) as (_ & _ & _ & Hc & _);
        destruct (process_blocks runCode l false bs s1) as [s2 r2]
    end.
    simpl in Hr, Hc. rewrite Htu in Hr. subst r2. simpl.
    exists s2. split; [reflexivity | lia]. }
  destruct E as (s2 & -> & Hc). destruct (IH s2) as [H1 H2].
  split; [exact H1 | lia].
Qed.

Lemma grows_model_loop_prefix (n : nat) (s : St) :
  (exists new, events (fst (agent_loop model runCode n s)) = (events s ++ new)%list)
  /\ (exists more, currentMessages (fst (agent_loop model runCode n s))
                   = (currentMessages s ++ more)%list).
Proof.
  destruct (grows_agent_loop n s) as ((new & Hev & _) & _ & Hmsg & _).
  split; [exists new; exact Hev | exact Hmsg].
Qed.

End Invariants.

(** C1. Once the stream is opened it is always closed, and its frames
    end either with the single [done] frame (the loop exited, by [break]
    or by exhausting [maxIterations]) or, when the model call rejected,
    with one [error] frame carrying its message and no [done] at all. *)
Theorem stream_ends_with_done_or_error
    (model : nat -> list Message -> Res (list Block))
    (runCode : nat -> string -> RunCode) (msgs : list Message) :
  let s := run_stream model runCode msgs in
  closed s = true
  /\ match snd (agent_loop model runCode maxIterations_init (init_state msgs)) with
     | Ok _ => exists pre, events s = (pre ++ [EvDone])%list /\ EvDone ∉ pre
     | Throw msg =>
         (exists pre, events s = (pre ++ [EvError msg])%list /\ EvDone ∉ pre)
         /\ exists k ms, model k ms = Throw msg
     end.
Proof.
  intros s. unfold s, run_stream, start, catch, bind.
  destruct (grows_agent_loop model runCode maxIterations_init (init_state msgs))
    as ((new & Hev & Hnd) & _ & _ & _ & Hthr).
  destruct (agent_loop model runCode maxIterations_init (init_state msgs))
    as [s1 [u | msg]]; simpl in *.
  - split; [reflexivity|]. exists new. split; [rewrite Hev; reflexivity | exact Hnd].
  - split; [reflexivity|]. split.
    + exists new. split; [rewrite Hev; reflexivity | exact Hnd].
    + apply Hthr. reflexivity.
Qed.

(** C7. At most [maxIterations] (10) model calls are made; the block
    processing of an iteration makes none, so each iteration is exactly
    its one [messages.create] call; and when every answer asks for a
    tool, exactly 10 calls are made and the stream still ends with the
    plain [done] frame. *)
Theorem iteration_cap
    (model : nat -> list Message -> Res (list Block))
    (runCode : nat -> string -> RunCode) (msgs : list Message) :
  model_calls (run_stream model runCode msgs) <= maxIterations_init
  /\ (forall l h bs s,
        model_calls (fst (process_blocks runCode l h bs s)) = model_calls s)
  /\ ((forall k ms, exists bs, model k ms = Ok bs /\ has_tool_use bs = true) ->
      model_calls (run_stream model runCode msgs) = maxIterations_init
      /\ exists pre, events (run_stream model runCode msgs)
                     = (pre ++ [EvDone])%list).
Proof.
  split; [| split].
  - unfold run_stream, start, catch, bind.
    destruct (grows_agent_loop model runCode maxIterations_init (init_state msgs))
      as (_ & _ & _ & Hc & _).
    destruct (agent_loop model runCode maxIterations_init (init_state msgs))
      as [s1 [u | msg]]; simpl in *; lia.
  - intros l h bs s.
    destruct (grows_process_blocks model runCode l h bs s) as (_ & _ & _ & Hc & _).
    lia.
  - intros Hm.
    destruct (agent_loop_all_tool_use model runCode maxIterations_init
                (init_state msgs) Hm) as [Hr Hc].
    unfold run_stream, start, catch, bind.
    destruct (agent_loop model runCode maxIterations_init (init_state msgs))
      as [s1 r1]; simpl in Hr, Hc. subst r1. simpl.
    split; [exact Hc|]. exists (events s1). reflexivity.
Qed.

Lemma filter_keeps (x : string) (l : list string) :
  In x l -> truthy x = true -> In x (List.filter truthy l).
Proof. intros Hin Ht. apply filter_In. auto. Qed.

Lemma error_block_in_tool_result (r : ExecOutcome) (e : string) :
  error r = Some e -> e <> "" ->
  exists pre suf, tool_result_text r = pre ++ "Error:" ++ nl ++ e ++ suf.
Proof.
  intros He Hne.
  assert (Hc : exists pre suf,
             toolResultContent r = pre ++ ("Error:" ++ nl ++ e) ++ suf).
  { apply join_contains, filter_keeps; [| reflexivity].
    rewrite He. apply truthy_true_iff in Hne. rewrite Hne. simpl. tauto. }
  destruct Hc as (pre & suf & Hc).
  unfold tool_result_text. rewrite Hc.
  assert (Ht : truthy (pre ++ ("Error:" ++ nl ++ e) ++ suf) = true).
  { apply truthy_true_iff. destruct pre; discriminate. }
  rewrite Ht. exists pre, suf. rewrite str_app_assoc. reflexivity.
Qed.

(** A tool invocation whose outcome has a non-null,
    non-empty error: the [error] frame is enqueued, the error block is
    in the tool result appended to the history, and the loop goes on to
    the next model call when the cap allows it. *)
Theorem execution_error_continues
    (model : nat -> list Message -> Res (list Block))
    (runCode : nat -> string -> RunCode) (n : nat) (s : St)
    (id code e : string) :
  model (model_calls s) (map (resolve (heap s)) (currentMessages s))
    = Ok [BToolUse id code] ->
  error (executeCode (runCode (code_runs s) code)) = Some e ->
  e <> "" ->
  let s' := fst (agent_loop model runCode (S (S n)) s) in
  EvError e ∈ events s'
  /\ (exists c pre suf,
        Value (UserMsg [UToolResult id c]) ∈ currentMessages s'
        /\ c = pre ++ "Error:" ++ nl ++ e ++ suf)
  /\ S (S (model_calls s)) <= model_calls s'.
Proof.
  intros Hm He Hne s'.
  set (r := executeCode (runCode (code_runs s) code)).
  assert (Her : error r = Some e) by exact He.
  set (s1 := mkSt (currentMessages s
                     ++ [AssistantRef (next_loc s);
                         Value (UserMsg [UToolResult id (tool_result_text r)])])%list
               (<[next_loc s := ([] ++ [BToolUse id code])%list]>
                  (<[next_loc s := []]> (heap s)))
               (S (next_loc s))
               (events s ++ EvCode code :: result_events r)%list
               (closed s) (S (model_calls s)) (S (code_runs s))).
  assert (E : agent_loop model runCode (S (S n)) s
              = agent_loop model runCode (S n) s1).
  { cbn [agent_loop]. unfold bind at 1, call_model. simpl. rewrite Hm.
    unfold bind at 1, new_array. simpl. unfold bind at 1.
    cbn [process_blocks]. unfold bind at 1.
    rewrite process_tool_use. simpl. rewrite lookup_insert_eq. reflexivity. }
  unfold s'. rewrite E.
  destruct (grows_model_loop_prefix model runCode (S n) s1) as [Hev Hmsg].
  split; [| split].
  - destruct Hev as (new & Hev). rewrite Hev. simpl.
    rewrite !elem_of_app. left. right. right.
    rewrite result_events_shape. rewrite Her. simpl.
    apply truthy_true_iff in Hne. rewrite Hne.
    rewrite !elem_of_app. destruct (truthy (text r)); set_solver.
  - destruct (error_block_in_tool_result r e Her Hne) as (pre & suf & Hc).
    exists (tool_result_text r), pre, suf. split; [| exact Hc].
    destruct Hmsg as (more & Hmsg). rewrite Hmsg. simpl. set_solver.
  - pose proof (agent_loop_calls_model model runCode n s1) as Hc. change (model_calls s1) with (S (model_calls s)) in Hc. lia.
Qed.

(** ** Concrete runs *)

Definition q_history : list Message := [UserMsg [UText "q"]].

(** Asks for one tool, then answers in text. *)
Definition model_retry (k : nat) (_ : list Message) : Res (list Block) :=
  match k with
  | 0 => Ok [BToolUse "toolu_1" "1/0"]
  | _ => Ok [BText "fixed"]
  end.

(** Always asks for a tool. *)
Definition model_always_tool (_ : nat) (_ : list Message) : Res (list Block) :=
  Ok [BToolUse "toolu_1" "print(1)"].

(** Asks for two tools in one answer, then answers in text. *)
Definition model_two_tools (k : nat) (_ : list Message) : Res (list Block) :=
  match k with
  | 0 => Ok [BToolUse "toolu_1" "a = 1"; BToolUse "toolu_2" "print(a)"]
  | _ => Ok [BText "done"]
  end.

Definition run_timeout (_ : nat) (_ : string) : RunCode := Rejected "Timeout".

Definition run_ok (_ : nat) (_ : string) : RunCode :=
  Resolved (mkExecution ["ok"] [] [] None).

(** An execution whose exception has an empty [value]. *)
Definition run_empty_error (_ : nat) (_ : string) : RunCode :=
  Resolved (mkExecution [] [] [] (Some "")).

Lemma execution_error_continues_witness :
  let s := init_state q_history in
  model_retry (model_calls s) (map (resolve (heap s)) (currentMessages s))
    = Ok [BToolUse "toolu_1" "1/0"]
  /\ error (executeCode (run_timeout (code_runs s) "1/0")) = Some "Timeout"
  /\ "Timeout" <> ""
  /\ (let s' := fst (agent_loop model_retry run_timeout 2 s) in
      EvError "Timeout" ∈ events s'
      /\ (exists c pre suf,
            Value (UserMsg [UToolResult "toolu_1" c]) ∈ currentMessages s'
            /\ c = pre ++ "Error:" ++ nl ++ "Timeout" ++ suf)
      /\ 2 <= model_calls s').
Proof.
  split; [reflexivity|]. split; [reflexivity|]. split; [discriminate|].
  apply (execution_error_continues model_retry run_timeout 0
           (init_state q_history) "toolu_1" "1/0" "Timeout");
    [reflexivity | reflexivity | discriminate].
Defined.

(** C3, the defect. A user exception whose [value] is empty (a bare
    [raise ValueError()] or a failing bare [assert]) leaves a non-null
    but empty error, which the summary drops: the model is told the code
    executed successfully. The sibling [catch] path of [executeCode]
    never yields an empty error ([e.message || "Execution failed"]). *)
Theorem empty_exception_summary :
  error (executeCode (run_empty_error 0 "assert False")) = Some ""
  /\ tool_result_text (executeCode (run_empty_error 0 "assert False")) = success_sentinel
  /\ error (executeCode (Rejected "")) = Some "Execution failed"
  /\ tool_result_text (executeCode (Rejected "")) = "Error:" ++ nl ++ "Execution failed".
Proof. split; [reflexivity | split; [reflexivity | split; reflexivity]]. Qed.

(** C6, the defect. The same empty exception during a request: no
    [error] frame is enqueued, the tool result appended to the history
    reads "Code executed successfully.", and the model is called again
    without being told the code failed. *)
Theorem empty_exception_not_surfaced :
  error (executeCode (run_empty_error 0 "1/0")) = Some ""
  /\ events (run_stream model_retry run_empty_error q_history)
     = [EvCode "1/0"; EvText "fixed"; EvDone]
  /\ map (resolve (heap (run_stream model_retry run_empty_error q_history)))
         (currentMessages (run_stream model_retry run_empty_error q_history))
     = [UserMsg [UText "q"]; AssistantMsg [BToolUse "toolu_1" "1/0"];
        UserMsg [UToolResult "toolu_1" success_sentinel]]
  /\ model_calls (run_stream model_retry run_empty_error q_history) = 2.
Proof. split; [reflexivity | split; [reflexivity | split; vm_compute; reflexivity]]. Qed.

Lemma iteration_cap_witness :
  model_calls (run_stream model_always_tool run_ok q_history) = maxIterations_init
  /\ exists pre, events (run_stream model_always_tool run_ok q_history)
                 = (pre ++ [EvDone])%list.
Proof.
  destruct (iteration_cap model_always_tool run_ok q_history) as (_ & _ & H).
  apply H. intros k ms. exists [BToolUse "toolu_1" "print(1)"].
  split; reflexivity.
Defined.

(** C8, evaluated. With two tool invocations in one answer, the history
    the second model call receives holds the assistant message twice,
    each time with both invocations (the shared [assistantContent]
    array), and the first copy is followed by the result of
    [toolu_1] only. Right after the first invocation, that same history
    entry still read [[toolu_1]]: it was changed in place. *)
Theorem two_tool_uses_history :
  let s1 := fst (agent_loop model_two_tools run_ok 1 (init_state q_history)) in
  map (resolve (heap s1)) (currentMessages s1) =
    [UserMsg [UText "q"];
     AssistantMsg [BToolUse "toolu_1" "a = 1"; BToolUse "toolu_2" "print(a)"];
     UserMsg [UToolResult "toolu_1" ("Output:" ++ nl ++ "ok")];
     AssistantMsg [BToolUse "toolu_1" "a = 1"; BToolUse "toolu_2" "print(a)"];
     UserMsg [UToolResult "toolu_2" ("Output:" ++ nl ++ "ok")]]
  /\ (let s0 := mkSt (map Value q_history) (<[0 := []]> ∅) 1 [] false 1 0 in
      let sa := fst (process_block run_ok 0 false
                       (BToolUse "toolu_1" "a = 1") s0) in
      let sb := fst (process_block run_ok 0 true
                       (BToolUse "toolu_2" "print(a)") sa) in
      map (resolve (heap sa)) (currentMessages sa) !! 1
        = Some (AssistantMsg [BToolUse "toolu_1" "a = 1"])
      /\ map (resolve (heap sb)) (currentMessages sb) !! 1
        = Some (AssistantMsg [BToolUse "toolu_1" "a = 1";
                              BToolUse "toolu_2" "print(a)"])).
Proof. split; [vm_compute; reflexivity | split; vm_compute; reflexivity]. Qed.

(** C10. When reading the body, acquiring the sandbox or uploading a
    file throws, [POST] answers with status 500 and the JSON body
    [{ error: message }]; no event stream is created. *)
Theorem prestream_failure_is_500
    (model : nat -> list Message -> Res (list Block))
    (runCode : nat -> string -> RunCode) (rj : Res Body)
    (acq : string -> SandboxMode -> Res unit) (up : string -> Res string)
    (msg : string) :
  (rj = Throw msg
   \/ (exists b, rj = Ok b /\ acq (sessionId b) (mode b) = Throw msg)
   \/ (exists b, rj = Ok b /\ acq (sessionId b) (mode b) = Ok tt
                 /\ upload_files up (default [] (files b)) = Throw msg)) ->
  POST model runCode rj acq up = JsonResponse 500 [("error", msg)]
  /\ forall st, POST model runCode rj acq up <> StreamResponse st.
Proof.
  intros H.
  assert (E : POST model runCode rj acq up = JsonResponse 500 [("error", msg)]).
  { unfold POST.
    destruct H as [-> | [(b & -> & Ha) | (b & -> & Ha & Hu)]].
    - reflexivity.
    - rewrite Ha. reflexivity.
    - rewrite Ha, Hu. reflexivity. }
  split; [exact E | intros st; rewrite E; discriminate].
Qed.

Lemma prestream_failure_is_500_witness :
  (Throw "Unexpected end of JSON input" : Res Body)
    = Throw "Unexpected end of JSON input"
  /\ POST model_retry run_ok (Throw "Unexpected end of JSON input")
       (fun _ _ => Ok tt) (fun n => Ok n)
     = JsonResponse 500 [("error", "Unexpected end of JSON input")].
Proof.
  split; [reflexivity|].
  apply (prestream_failure_is_500 model_retry run_ok
           (Throw "Unexpected end of JSON input") (fun _ _ => Ok tt)
           (fun n => Ok n) "Unexpected end of JSON input").
  left. reflexivity.
Defined.

(* ------------------------------------------------------------------ *)
(** ** [getOrCreateSandbox] under interleaving (storage.ts, 108-142) *)

Module Pool.

Definition mode_str (m : SandboxMode) : string :=
  match m with vanilla => "vanilla" | spinel => "spinel" end.

(** [`${sessionId}-${mode}`]. *)
Definition key (sessionId : string) (m : SandboxMode) : string :=
  sessionId ++ "-" ++ mode_str m.

(** The module-level [activeSandboxes] map, and the number of sandboxes
    [Sandbox.create] has made so far (the [n]-th one is sandbox [n]). *)
Record PoolSt := mkPool {
  activeSandboxes : gmap string nat;
  created : nat
}.

(** A call of [getOrCreateSandbox] in progress: not yet started;
    suspended at [await Sandbox.create(...)] (and the setup awaits
    after it) with the sandbox being made; or returned. *)
Inductive Call :=
  | Entered (sessionId : string) (m : SandboxMode)
  | Creating (sessionId : string) (m : SandboxMode) (sandbox : nat)
  | Returned (sandbox : nat).

(** Run a call up to its next [await]. *)
Definition step (p : PoolSt) (c : Call) : PoolSt * Call :=
  match c with
  | Entered sid m =>
      match activeSandboxes p !! key sid m with
      | Some sb => (p, Returned sb)
      | None => (mkPool (activeSandboxes p) (S (created p)),
                 Creating sid m (created p))
      end
  | Creating sid m sb =>
      (mkPool (<[key sid m := sb]> (activeSandboxes p)) (created p),
       Returned sb)
  | Returned sb => (p, Returned sb)
  end.

(** The event loop resumes the calls in the order [sched] names them. *)
Fixpoint run (p : PoolSt) (cs : list Call) (sched : list nat)
    : PoolSt * list Call :=
  match sched with
  | [] => (p, cs)
  | i :: rest =>
      match cs !! i with
      | None => run p cs rest
      | Some c => let '(p', c') := step p c in run p' (<[i := c']> cs) rest
      end
  end.

Definition empty_pool : PoolSt := mkPool ∅ 0.

(** C4 counterexample. Two overlapping calls for the same key, from an
    empty pool, each pass the cache check before either registers:
    two sandboxes are created and the callers get different ones. *)
Lemma concurrent_acquire_counterexample :
  let '(p, cs) := run empty_pool [Entered "s1" spinel; Entered "s1" spinel]
                      [0; 1; 0; 1] in
  created p = 2 /\ cs = [Returned 0; Returned 1].
Proof. vm_compute. split; reflexivity. Qed.

Lemma run_finished (p : PoolSt) (rest : list nat) :
  forall cs, Forall (fun c => exists sb, c = Returned sb) cs -> run p cs rest = (p, cs).
Proof.
  induction rest as [|i rest IH]; intros cs Hcs; [reflexivity|].
  cbn [run]. destruct (cs !! i) as [c|] eqn:Ei; [|apply IH; exact Hcs].
  destruct (Forall_lookup_1 _ _ _ _ Hcs Ei) as [sb ->]. cbn [step].
  rewrite list_insert_id by exact Ei. apply IH. exact Hcs.
Qed.

Lemma returned_pair (a b : nat) :
  Forall (fun c => exists sb, c = Returned sb) [Returned a; Returned b].
Proof. constructor; [eexists; reflexivity|]. constructor; [eexists; reflexivity|]. constructor. Qed.

(** C4 (amended). Two calls with the same arguments, one after the
    other, return the same sandbox, created at most once (exactly once
    when none was registered). Two overlapping calls for a key not yet
    registered that both pass the cache check before either registers,
    in either order and resumed in either order, create two sandboxes
    and get different ones (the call that checked first gets the first
    one); the entry ends with the sandbox of the call that registered
    last. Whatever runs afterwards changes nothing. *)
Theorem acquire_sequential_and_concurrent (p : PoolSt) (sid : string)
    (m : SandboxMode) :
  (forall rest,
   let '(p2, cs) := run p [Entered sid m; Entered sid m] (0 :: 0 :: 1 :: 1 :: rest) in
   exists sb, cs = [Returned sb; Returned sb]
              /\ activeSandboxes p2 !! key sid m = Some sb
              /\ created p2 = created p + match activeSandboxes p !! key sid m with
                                          | Some _ => 0 | None => 1 end)
  /\ (activeSandboxes p !! key sid m = None ->
      forall i j k l rest,
      (i = 0 /\ j = 1) \/ (i = 1 /\ j = 0) ->
      (k = 0 /\ l = 1) \/ (k = 1 /\ l = 0) ->
      let '(p2, cs) := run p [Entered sid m; Entered sid m] (i :: j :: k :: l :: rest) in
      cs !! i = Some (Returned (created p))
      /\ cs !! j = Some (Returned (S (created p)))
      /\ created p2 = created p + 2
      /\ activeSandboxes p2 !! key sid m
         = Some (if Nat.eqb l i then created p else S (created p))).
Proof.
  split.
  - intros rest. destruct (activeSandboxes p !! key sid m) as [sb|] eqn:E.
    + simpl. rewrite E. simpl. rewrite E. simpl.
      rewrite run_finished by apply returned_pair.
      exists sb. split; [reflexivity|]. split; [exact E | lia].
    + simpl. rewrite E. simpl. rewrite lookup_insert_eq. simpl.
      rewrite run_finished by apply returned_pair.
      exists (created p). split; [reflexivity|].
      split; [apply lookup_insert_eq | simpl; lia].
  - intros E i j k l rest Hij Hkl.
    destruct Hij as [[-> ->]|[-> ->]], Hkl as [[-> ->]|[-> ->]];
      simpl; rewrite E; simpl; rewrite E; simpl;
      (rewrite run_finished by apply returned_pair);
      (split; [reflexivity|]); (split; [reflexivity|]); (split; [simpl; lia|]);
      rewrite insert_insert_eq; apply lookup_insert_eq.
Qed.

Lemma acquire_sequential_and_concurrent_witness :
  activeSandboxes empty_pool !! key "s1" spinel = None
  /\ (let '(p2, cs) := run empty_pool [Entered "s1" spinel; Entered "s1" spinel]
                          [0; 1; 1; 0] in
      cs !! 0 = Some (Returned (created empty_pool))
      /\ cs !! 1 = Some (Returned (S (created empty_pool)))
      /\ created p2 = created empty_pool + 2
      /\ activeSandboxes p2 !! key "s1" spinel
         = Some (if Nat.eqb 0 0 then created empty_pool else S (created empty_pool))).
Proof.
  assert (E : activeSandboxes empty_pool !! key "s1" spinel = None) by reflexivity.
  split; [exact E|].
  destruct (acquire_sequential_and_concurrent empty_pool "s1" spinel) as [_ H].
  exact (H E 0 1 1 0 [] (or_introl (conj eq_refl eq_refl)) (or_intror (conj eq_refl eq_refl))).
Defined.

End Pool.

(* ------------------------------------------------------------------ *)
(** ** The wire format of the event stream

    The route writes each event as [`data: ${JSON.stringify(obj)}\n\n`]
    (route.ts, lines 137-235); the arena page reads the body in
    [streamChat] (part_001, lines 201-221): it appends every decoded chunk
    to [buffer], splits it on ["\n\n"], keeps the last piece as the new
    [buffer], and hands [line.slice(6)] of every other piece that starts
    with ["data: "] to [JSON.parse]. Chunks are the decoder's output,
    i.e. text. *)

Module Sse.

(** The double quote and backslash characters. *)
Definition dq : string := String "034" "".
Definition bs : string := String "092" "".

(** A lower-case hexadecimal digit, as in [UnicodeEscape]. *)
Definition hex_digit (n : nat) : string :=
  String (ascii_of_nat (if (n <? 10)%nat then (48 + n)%nat else (87 + n)%nat)) "".

(** One code unit of [QuoteJSONString]. *)
Definition json_escape_char (c : ascii) : string :=
  let n := nat_of_ascii c in
  if Nat.eqb n 8 then bs ++ "b"
  else if Nat.eqb n 9 then bs ++ "t"
  else if Nat.eqb n 10 then bs ++ "n"
  else if Nat.eqb n 12 then bs ++ "f"
  else if Nat.eqb n 13 then bs ++ "r"
  else if Nat.eqb n 34 then bs ++ dq
  else if Nat.eqb n 92 then bs ++ bs
  else if (n <? 32)%nat then bs ++ "u00" ++ hex_digit (n / 16)%nat ++ hex_digit (n mod 16)%nat
  else String c "".

(** [JSON.stringify] of a string. *)
Definition json_quote (s : string) : string :=
  dq ++ String.concat "" (map json_escape_char (list_ascii_of_string s)) ++ dq.

(** [JSON.stringify({ type: t, content: c })], and [{ type: "done" }]. *)
Definition json_key (k : string) : string := dq ++ k ++ dq ++ ":".

Definition json_event (t c : string) : string :=
  "{" ++ json_key "type" ++ json_quote t ++ ","
      ++ json_key "content" ++ json_quote c ++ "}".

Definition payload (ev : Event) : string :=
  match ev with
  | EvText c => json_event "text" c
  | EvCode c => json_event "code" c
  | EvOutput c => json_event "output" c
  | EvError c => json_event "error" c
  | EvImage c => json_event "image" c
  | EvDone => "{" ++ json_key "type" ++ json_quote "done" ++ "}"
  end.

(** [`data: ${JSON.stringify(obj)}\n\n`]. *)
Definition frame (ev : Event) : string := "data: " ++ payload ev ++ nl ++ nl.

(** The text of the whole response body. *)
Definition body_text (evs : list Event) : string := String.concat "" (map frame evs).

Definition is_lf (c : ascii) : bool := Nat.eqb (nat_of_ascii c) 10.

(** [String.prototype.split("\n\n")], scanning left to right: the pieces
    found so far, and the current piece (reversed). A line feed ending
    the current piece closes it when the next character is a line feed. *)
Definition scan_step (st : list (list ascii) * list ascii) (c : ascii)
    : list (list ascii) * list ascii :=
  let '(pieces, cur) := st in
  match cur with
  | p :: cur' => if is_lf c && is_lf p then ((pieces ++ [rev cur'])%list, [])
                 else (pieces, c :: cur)
  | [] => (pieces, [c])
  end.

Definition scan (l : list ascii) (st : list (list ascii) * list ascii) :=
  fold_left scan_step l st.

Definition split_nn (s : string) : list string :=
  let '(pieces, cur) := scan (list_ascii_of_string s) ([], []) in
  map string_of_list_ascii (pieces ++ [rev cur])%list.

(** [line.slice(6)]. *)
Definition slice6 (line : string) : string :=
  string_of_list_ascii (drop 6 (list_ascii_of_string line)).

(** The reader's state: [buffer], and the texts given to [JSON.parse]. *)
Record Reader := mkReader { buffer : string; parsed : list string }.

Definition reader_init : Reader := mkReader "" [].

(** One iteration of the [while (true)] loop for a chunk [value]. *)
Definition read_chunk (r : Reader) (chunk : string) : Reader :=
  let lines := split_nn (buffer r ++ chunk) in
  mkReader (default "" (last lines))
           (parsed r ++ map slice6
              (filter (fun line => String.prefix "data: " line = true)
                      (removelast lines)))%list.

Definition read_all (chunks : list string) : Reader :=
  fold_left read_chunk chunks reader_init.

(** *** Properties of the framing *)

Lemma las_app (a b : string) :
  list_ascii_of_string (a ++ b) = (list_ascii_of_string a ++ list_ascii_of_string b)%list.
Proof.
  induction a as [|c a IH]; [reflexivity|].
  change (list_ascii_of_string (String c a ++ b))
    with (c :: list_ascii_of_string (a ++ b)).
  rewrite IH. reflexivity.
Qed.

Lemma las_concat (l : list string) :
  list_ascii_of_string (String.concat "" l) = flat_map list_ascii_of_string l.
Proof.
  induction l as [|x l IH]; [reflexivity|].
  destruct l as [|y l].
  - simpl. rewrite app_nil_r. reflexivity.
  - change (String.concat "" (x :: y :: l)) with (x ++ "" ++ String.concat "" (y :: l)).
    rewrite las_app, las_app, IH. reflexivity.
Qed.

Lemma scan_app (l1 l2 : list ascii) st : scan (l1 ++ l2) st = scan l2 (scan l1 st).
Proof. unfold scan. apply fold_left_app. Qed.

(** Pieces are only ever appended. *)
Lemma scan_pieces (l : list ascii) ps cur :
  scan l (ps, cur) = ((ps ++ fst (scan l ([], cur)))%list, snd (scan l ([], cur))).
Proof.
  revert ps cur. induction l as [|c l IH]; intros ps cur.
  - simpl. rewrite app_nil_r. reflexivity.
  - change (scan (c :: l) (ps, cur)) with (scan l (scan_step (ps, cur) c)).
    change (scan (c :: l) ([], cur)) with (scan l (scan_step ([], cur) c)).
    destruct cur as [|p cur']; simpl.
    + rewrite IH, (IH [] [c]). reflexivity.
    + destruct (is_lf c && is_lf p).
      * rewrite (IH (ps ++ [rev cur'])%list []), (IH [rev cur'] []).
        simpl. rewrite <- app_assoc. reflexivity.
      * rewrite IH, (IH [] (c :: p :: cur')). reflexivity.
Qed.

(** Scanning the current piece again from the start rebuilds it: the
    piece kept as [buffer] holds no separator that the scan skipped. *)
Lemma scan_rescan (l : list ascii) st :
  scan (rev (snd st)) ([], []) = ([], snd st) ->
  scan (rev (snd (scan l st))) ([], []) = ([], snd (scan l st)).
Proof.
  revert st. induction l as [|c l IH]; intros [ps cur] H; [exact H|].
  change (scan (c :: l) (ps, cur)) with (scan l (scan_step (ps, cur) c)).
  apply IH. cbn [snd] in H.
  destruct cur as [|p cur']; unfold scan_step; cbn beta iota.
  - reflexivity.
  - destruct (is_lf c && is_lf p) eqn:E; cbn [snd]; [reflexivity|].
    change (rev (c :: p :: cur')) with (rev (p :: cur') ++ [c])%list.
    rewrite scan_app, H. unfold scan. simpl. rewrite E. reflexivity.
Qed.

Definition no_lf (l : list ascii) : bool := forallb (fun c => negb (is_lf c)) l.

Lemma scan_no_lf (w : list ascii) ps cur :
  no_lf w = true -> scan w (ps, cur) = (ps, (rev w ++ cur)%list).
Proof.
  revert cur. induction w as [|c w IH]; intros cur Hw; [reflexivity|].
  simpl in Hw. apply andb_prop in Hw as [Hc Hw].
  change (scan (c :: w) (ps, cur)) with (scan w (scan_step (ps, cur) c)).
  assert (Hs : scan_step (ps, cur) c = (ps, c :: cur)).
  { destruct cur as [|p cur']; [reflexivity|]. simpl.
    apply negb_true_iff in Hc. rewrite Hc. reflexivity. }
  rewrite Hs, IH by exact Hw. simpl. rewrite <- app_assoc. reflexivity.
Qed.

(** A piece without line feeds followed by ["\n\n"] is split off whole. *)
Lemma scan_piece (w : list ascii) ps :
  no_lf w = true -> scan (w ++ ["010"; "010"]%char) (ps, []) = ((ps ++ [w])%list, []).
Proof.
  intros Hw. rewrite scan_app, scan_no_lf by exact Hw. rewrite app_nil_r.
  assert (H1 : scan_step (ps, rev w) "010"%char = (ps, "010"%char :: rev w)).
  { destruct (rev w) as [|p r] eqn:E; [reflexivity|]. simpl.
    assert (Hp : is_lf p = false).
    { unfold no_lf in Hw. rewrite forallb_forall in Hw.
      assert (Hin : In p w) by (apply in_rev; rewrite E; left; reflexivity).
      specialize (Hw p Hin). apply negb_true_iff in Hw. exact Hw. }
    rewrite Hp. reflexivity. }
  change (scan ["010"; "010"]%char (ps, rev w))
    with (scan_step (scan_step (ps, rev w) "010"%char) "010"%char).
  rewrite H1. simpl. rewrite rev_involutive. reflexivity.
Qed.

Lemma no_lf_app (a b : list ascii) : no_lf (a ++ b) = no_lf a && no_lf b.
Proof. unfold no_lf. apply forallb_app. Qed.

Lemma json_escape_char_no_lf (c : ascii) :
  no_lf (list_ascii_of_string (json_escape_char c)) = true.
Proof. destruct c as [[] [] [] [] [] [] [] []]; reflexivity. Qed.

Lemma json_quote_no_lf (s : string) : no_lf (list_ascii_of_string (json_quote s)) = true.
Proof.
  unfold json_quote. rewrite !las_app, !no_lf_app, las_concat.
  assert (H : no_lf (flat_map list_ascii_of_string
                       (map json_escape_char (list_ascii_of_string s))) = true).
  { induction (list_ascii_of_string s) as [|c l IH]; [reflexivity|].
    simpl. rewrite no_lf_app, json_escape_char_no_lf. exact IH. }
  rewrite H. reflexivity.
Qed.

Lemma payload_no_lf (ev : Event) : no_lf (list_ascii_of_string ("data: " ++ payload ev)) = true.
Proof.
  destruct ev; unfold payload, json_event, json_key;
    rewrite ?las_app, ?no_lf_app, ?json_quote_no_lf; reflexivity.
Qed.

Lemma las_frame (ev : Event) :
  list_ascii_of_string (frame ev)
  = (list_ascii_of_string ("data: " ++ payload ev) ++ ["010"; "010"]%char)%list.
Proof.
  unfold frame. rewrite !las_app, <- !app_assoc. reflexivity.
Qed.

Lemma scan_body (evs : list Event) ps :
  scan (flat_map (fun ev => list_ascii_of_string (frame ev)) evs) (ps, [])
  = ((ps ++ map (fun ev => list_ascii_of_string ("data: " ++ payload ev)) evs)%list, []).
Proof.
  revert ps. induction evs as [|ev evs IH]; intros ps.
  - simpl. rewrite app_nil_r. reflexivity.
  - cbn [flat_map]. rewrite scan_app, las_frame, scan_piece by apply payload_no_lf.
    rewrite IH, <- app_assoc. reflexivity.
Qed.

Definition handed (ps : list (list ascii)) : list string :=
  map slice6 (filter (fun line => String.prefix "data: " line = true)
                     (map string_of_list_ascii ps)).

Lemma handed_app ps1 ps2 : handed (ps1 ++ ps2) = (handed ps1 ++ handed ps2)%list.
Proof. unfold handed. rewrite map_app, filter_app, map_app. reflexivity. Qed.

(** The reader after any chunks is the reader after their concatenation
    read at once. *)
Lemma read_all_scan (chunks : list string) :
  let st := scan (flat_map list_ascii_of_string chunks) ([], []) in
  read_all chunks = mkReader (string_of_list_ascii (rev (snd st))) (handed (fst st)).
Proof.
  induction chunks as [|c cs IH] using rev_ind; [reflexivity|].
  simpl in *. unfold read_all in *. rewrite fold_left_app, IH. simpl.
  rewrite flat_map_app. simpl. rewrite app_nil_r, scan_app.
  set (st := scan (flat_map list_ascii_of_string cs) ([], [])).
  assert (Hre : scan (rev (snd st)) ([], []) = ([], snd st)).
  { apply scan_rescan. reflexivity. }
  unfold read_chunk, split_nn. simpl.
  rewrite las_app, list_ascii_of_string_of_list_ascii, scan_app, Hre.
  destruct st as [ps cur]. simpl.
  rewrite (scan_pieces (list_ascii_of_string c) ps cur).
  destruct (scan (list_ascii_of_string c) ([], cur)) as [ps2 cur2]. simpl.
  rewrite map_app. simpl. rewrite last_snoc, removelast_last, handed_app.
  reflexivity.
Qed.

Lemma prefix_data (p : string) : String.prefix "data: " ("data: " ++ p) = true.
Proof. destruct p; reflexivity. Qed.

Lemma slice6_data (p : string) : slice6 ("data: " ++ p) = p.
Proof. unfold slice6. rewrite las_app. apply string_of_list_ascii_of_string. Qed.

Lemma handed_cons x ps : handed (x :: ps) = (handed [x] ++ handed ps)%list.
Proof. exact (handed_app [x] ps). Qed.

Lemma handed_frames (evs : list Event) :
  handed (map (fun ev => list_ascii_of_string ("data: " ++ payload ev)) evs)
  = map payload evs.
Proof.
  induction evs as [|ev evs IH]; [reflexivity|].
  cbn [map]. rewrite handed_cons.
  rewrite IH. unfold handed. cbn [map]. rewrite string_of_list_ascii_of_string.
  rewrite filter_cons_True by apply prefix_data. rewrite filter_nil.
  cbn [map app]. rewrite slice6_data. reflexivity.
Qed.

Lemma flat_map_las_frames (evs : list Event) :
  flat_map list_ascii_of_string (map frame evs)
  = flat_map (fun ev => list_ascii_of_string (frame ev)) evs.
Proof. induction evs as [|ev evs IH]; simpl; [reflexivity|]. rewrite IH. reflexivity. Qed.

(** The page receives every event the route writes, in order and
    unchanged: however the response body is cut into chunks, the texts
    [streamChat] hands to [JSON.parse] are exactly the [JSON.stringify]
    outputs of the events, one per event, and nothing is left in
    [buffer] at the end. This rests on [JSON.stringify] escaping every
    line feed, so that no payload contains the ["\n\n"] separator. *)
Theorem stream_framing_round_trip (evs : list Event) (chunks : list string)
    (Hbody : String.concat "" chunks = body_text evs) :
  parsed (read_all chunks) = map payload evs /\ buffer (read_all chunks) = "".
Proof.
  rewrite read_all_scan.
  rewrite <- las_concat, Hbody. unfold body_text.
  rewrite las_concat, flat_map_las_frames, scan_body. cbn [fst snd app parsed buffer].
  rewrite handed_frames. split; reflexivity.
Qed.

Lemma stream_framing_round_trip_witness :
  let evs := [EvText ("a" ++ nl ++ nl ++ "b"); EvOutput dq; EvDone] in
  let b := body_text evs in
  let chunks := [substring 0 7 b; substring 7 21 b; substring 28 (String.length b - 28) b] in
  String.concat "" chunks = body_text evs
  /\ parsed (read_all chunks) = map payload evs /\ buffer (read_all chunks) = "".
Proof.
  intros evs b chunks.
  assert (H : String.concat "" chunks = body_text evs) by (vm_compute; reflexivity).
  split; [exact H|]. exact (stream_framing_round_trip evs chunks H).
Defined.

End Sse.

(* ------------------------------------------------------------------ *)
(** ** [spinel-plugin.ts]: the skill text and the package list

    Both are fetched from the plugin's repository and kept in a
    module-level cache entry for [CACHE_TTL_MS]. A regular expression is
    embedded as the scan its backtracking matcher performs; [.] does not
    match a line terminator (LF or CR in the Latin-1 range), [\s] is
    [is_js_ws], and [$] without the [m] flag only matches at the end. *)

From Stdlib Require Import ZArith.

Module Plugin.

Definition CR : ascii := "013".
Definition LF : ascii := "010".

Definition is_char (c : ascii) (d : ascii) : bool := Ascii.eqb c d.

Definition no_cr (l : list ascii) : bool := forallb (fun c => negb (is_char c CR)) l.

(** [s.replace(/[P].*$/, "")] for a character class [P]: the leftmost
    position holding a [P] character from which [.*] reaches the end. *)
Fixpoint cut_at (p : ascii -> bool) (l : list ascii) : list ascii :=
  match l with
  | [] => []
  | c :: r => if p c && no_cr r then [] else c :: cut_at p r
  end.

(** [s.replace(/,\s*$/, "")]. *)
Fixpoint cut_trailing_comma (l : list ascii) : list ascii :=
  match l with
  | [] => []
  | c :: r => if is_char c "," && forallb is_js_ws r then [] else c :: cut_trailing_comma r
  end.

Definition is_quote (c : ascii) : bool := is_char c "034" || is_char c "'".
Definition is_hash (c : ascii) : bool := is_char c "#".
(** The class [[><=!~]]. *)
Definition is_op (c : ascii) : bool :=
  is_char c ">" || is_char c "<" || is_char c "=" || is_char c "!" || is_char c "~".

(** [s.split("\n")]. *)
Fixpoint split_lf (l : list ascii) : list (list ascii) :=
  match l with
  | [] => [[]]
  | c :: r =>
      if is_char c LF then [] :: split_lf r
      else match split_lf r with
           | w :: ws => (c :: w) :: ws
           | [] => [[c]]
           end
  end.

(** [/REQUIREMENTS\s*=\s*\[([\s\S]*?)\]/]: the capture, up to the first
    [']'] after the bracket, of the leftmost position where the pattern
    matches. *)
Fixpoint until_bracket (l : list ascii) : option (list ascii) :=
  match l with
  | [] => None
  | c :: r =>
      if is_char c "]" then Some []
      else match until_bracket r with Some w => Some (c :: w) | None => None end
  end.

Fixpoint strip_prefix (p l : list ascii) : option (list ascii) :=
  match p, l with
  | [], _ => Some l
  | c :: p', d :: l' => if is_char c d then strip_prefix p' l' else None
  | _ :: _, [] => None
  end.

Definition requirements_at (l : list ascii) : option (list ascii) :=
  match strip_prefix (list_ascii_of_string "REQUIREMENTS") l with
  | None => None
  | Some r =>
      match drop_ws r with
      | c :: r' =>
          if is_char c "=" then
            match drop_ws r' with
            | d :: r'' => if is_char d "[" then until_bracket r'' else None
            | [] => None
            end
          else None
      | [] => None
      end
  end.

Fixpoint find_requirements (l : list ascii) : option (list ascii) :=
  match l with
  | [] => None
  | _ :: r =>
      match requirements_at l with
      | Some cap => Some cap
      | None => find_requirements r
      end
  end.

Definition replace_tail (p : ascii -> bool) (s : string) : string :=
  string_of_list_ascii (cut_at p (list_ascii_of_string s)).

(** [line.replace(/#.*$/, "").trim()]. *)
Definition strip_comment (line : string) : string := trim (replace_tail is_hash line).

Definition is_quoted (line : string) : bool :=
  String.prefix Sse.dq line || String.prefix "'" line.

(** The second [map] callback. *)
Definition package_name (line : string) : string :=
  let pkg := string_of_list_ascii
               (cut_trailing_comma
                  (List.filter (fun c => negb (is_quote c)) (list_ascii_of_string line))) in
  trim (replace_tail is_op pkg).

(** The [try] body after [res.text()]: [None] where it throws
    ["Could not find REQUIREMENTS in setup.py"]. *)
Definition parse_requirements (text : string) : option (list string) :=
  match find_requirements (list_ascii_of_string text) with
  | None => None
  | Some cap =>
      Some (List.filter truthy
              (map package_name
                 (List.filter is_quoted
                    (map (fun w => strip_comment (string_of_list_ascii w))
                         (split_lf cap)))))
  end.

(** [stripFrontmatter]: [/^---\r?\n[\s\S]*?\r?\n---\r?\n/], then
    [md.slice(match[0].length).trimStart()]. *)
Definition eol (l : list ascii) : option (list ascii) :=
  match l with
  | c :: d :: r => if is_char c CR && is_char d LF then Some r
                   else if is_char c LF then Some (d :: r) else None
  | [c] => if is_char c LF then Some [] else None
  | [] => None
  end.

Definition dashes : list ascii := ["-"; "-"; "-"]%char.

Definition fence_at (l : list ascii) : option (list ascii) :=
  match eol l with
  | Some r => match strip_prefix dashes r with Some r' => eol r' | None => None end
  | None => None
  end.

(** The lazy [[\s\S]*?]: the first position where the closing fence
    matches. *)
Fixpoint find_fence (l : list ascii) : option (list ascii) :=
  match fence_at l with
  | Some r => Some r
  | None => match l with [] => None | _ :: l' => find_fence l' end
  end.

Definition trimStart (s : string) : string :=
  string_of_list_ascii (drop_ws (list_ascii_of_string s)).

Definition stripFrontmatter (md : string) : string :=
  match strip_prefix dashes (list_ascii_of_string md) with
  | Some r =>
      match eol r with
      | Some r' =>
          match find_fence r' with
          | Some rest => trimStart (string_of_list_ascii rest)
          | None => md
          end
      | None => md
      end
  | None => md
  end.

(** No line feed of [l] is followed by [---]: no line after the first
    starts with the closing fence. *)
Fixpoint no_dash_line (l : list ascii) : bool :=
  match l with
  | [] => true
  | c :: r =>
      negb (is_char c LF && match strip_prefix dashes r with Some _ => true | None => false end)
      && no_dash_line r
  end.

(** The cache entries and [isFresh]; times are [Date.now()] values. *)
Definition CACHE_TTL_MS : Z := 60 * 60 * 1000.

Record CacheEntry (A : Type) := mkEntry { value : A; fetchedAt : Z }.
Arguments mkEntry {A} value fetchedAt.
Arguments value {A} c.
Arguments fetchedAt {A} c.

Definition isFresh {A} (now : Z) (entry : option (CacheEntry A)) : bool :=
  match entry with
  | Some e => (now - fetchedAt e <? CACHE_TTL_MS)%Z
  | None => false
  end.

(** How the awaited [fetch(...)] and [res.text()] settle: a rejection
    (network error, the 10 s abort, or a failing [text()]), or a
    response with its [ok] flag, status and body. *)
Inductive Fetch :=
  | FetchRejected (message : string)
  | FetchResolved (ok : bool) (status : Z) (body : string).

Definition FALLBACK_PACKAGES : list string :=
  ["pymatgen"; "mp-api"; "ase"; "pycalphad"; "matgl"; "cellpy"; "galvani";
   "impedance"; "tifffile"; "jcamp"; "brukeropusreader"].

Section Fetchers.

(** The hard-coded [FALLBACK_SKILL_CONTENT] (lines 36-107). *)
Variable FALLBACK_SKILL_CONTENT : string.

(** [getSkillContent] called at time [t0] with the cache [skillCache],
    the fetch settling as [f], and [Date.now()] read again at [t1] after
    it: the returned string and the new cache. *)
Definition getSkillContent (skillCache : option (CacheEntry string)) (t0 : Z)
    (f : Fetch) (t1 : Z) : string * option (CacheEntry string) :=
  match skillCache with
  | Some e => if isFresh t0 skillCache then (value e, skillCache) else
      match f with
      | FetchResolved true _ raw =>
          let content := stripFrontmatter raw in (content, Some (mkEntry content t1))
      | _ => (FALLBACK_SKILL_CONTENT, skillCache)
      end
  | None =>
      match f with
      | FetchResolved true _ raw =>
          let content := stripFrontmatter raw in (content, Some (mkEntry content t1))
      | _ => (FALLBACK_SKILL_CONTENT, skillCache)
      end
  end.

End Fetchers.

Definition getPackageList (packageCache : option (CacheEntry (list string))) (t0 : Z)
    (f : Fetch) (t1 : Z) : list string * option (CacheEntry (list string)) :=
  let fetch_and_parse :=
    match f with
    | FetchResolved true _ text =>
        match parse_requirements text with
        | Some packages => (packages, Some (mkEntry packages t1))
        | None => (FALLBACK_PACKAGES, packageCache)
        end
    | _ => (FALLBACK_PACKAGES, packageCache)
    end in
  match packageCache with
  | Some e => if isFresh t0 packageCache then (value e, packageCache) else fetch_and_parse
  | None => fetch_and_parse
  end.

(** *** Properties of the parsers *)

Lemma drop_ws_incl (l : list ascii) : incl (drop_ws l) l.
Proof.
  induction l as [|c l IH]; simpl; [apply incl_refl|].
  destruct (is_js_ws c); [apply incl_tl, IH | apply incl_refl].
Qed.

Lemma drop_ws_idem (l : list ascii) : drop_ws (drop_ws l) = drop_ws l.
Proof.
  induction l as [|c l IH]; simpl; [reflexivity|].
  destruct (is_js_ws c) eqn:E; [exact IH|]. simpl. rewrite E. reflexivity.
Qed.

Lemma drop_ws_snoc (z : list ascii) (c : ascii) :
  is_js_ws c = false -> exists p, drop_ws (z ++ [c]) = (p ++ [c])%list.
Proof.
  intros Hc. induction z as [|a z IH]; simpl.
  - rewrite Hc. exists []. reflexivity.
  - destruct (is_js_ws a); [exact IH|]. exists (a :: z). reflexivity.
Qed.

Lemma trim_l_incl (l : list ascii) : incl (rev (drop_ws (rev (drop_ws l)))) l.
Proof.
  intros c H. apply in_rev in H. apply drop_ws_incl in H. apply in_rev in H.
  apply drop_ws_incl in H. exact H.
Qed.

Lemma trim_incl (s : string) :
  incl (list_ascii_of_string (trim s)) (list_ascii_of_string s).
Proof. unfold trim. rewrite list_ascii_of_string_of_list_ascii. apply trim_l_incl. Qed.

Lemma trim_idem (s : string) : trim (trim s) = trim s.
Proof.
  unfold trim. rewrite list_ascii_of_string_of_list_ascii. f_equal.
  destruct (drop_ws (list_ascii_of_string s)) as [|c t] eqn:E; [reflexivity|].
  assert (Hc : is_js_ws c = false).
  { revert E. clear. induction (list_ascii_of_string s) as [|a l IH]; simpl;
      [discriminate|]. destruct (is_js_ws a) eqn:Ea; [exact IH|].
    intros H. injection H as -> _. exact Ea. }
  cbn [rev]. destruct (drop_ws_snoc (rev t) c Hc) as [p Hp]. rewrite Hp.
  assert (Hr : rev (p ++ [c]) = c :: rev p) by (rewrite rev_app_distr; reflexivity).
  rewrite Hr. cbn [drop_ws]. rewrite Hc.
  rewrite <- Hr, rev_involutive, <- Hp, drop_ws_idem. reflexivity.
Qed.

Lemma cut_at_incl p (l : list ascii) : incl (cut_at p l) l.
Proof.
  induction l as [|c l IH]; simpl; [apply incl_refl|].
  destruct (p c && no_cr l); [intros ? []|].
  apply incl_cons; [left; reflexivity|]. apply incl_tl, IH.
Qed.

Lemma cut_at_none p (l : list ascii) :
  no_cr l = true -> forall c, In c (cut_at p l) -> p c = false.
Proof.
  induction l as [|a l IH]; simpl; [intros _ _ []|].
  intros H. apply andb_prop in H as [_ Hl].
  rewrite Hl, andb_true_r. destruct (p a) eqn:Ea; [intros _ []|].
  intros c [<- | Hc]; [exact Ea | exact (IH Hl c Hc)].
Qed.

Lemma cut_trailing_comma_incl (l : list ascii) : incl (cut_trailing_comma l) l.
Proof.
  induction l as [|c l IH]; simpl; [apply incl_refl|].
  destruct (is_char c "," && forallb is_js_ws l); [intros ? []|].
  apply incl_cons; [left; reflexivity|]. apply incl_tl, IH.
Qed.

Lemma no_cr_incl (a b : list ascii) : incl a b -> no_cr b = true -> no_cr a = true.
Proof.
  unfold no_cr. rewrite !forallb_forall. intros Hi Hb c Hc. exact (Hb c (Hi c Hc)).
Qed.

Lemma replace_tail_incl p (s : string) :
  incl (list_ascii_of_string (replace_tail p s)) (list_ascii_of_string s).
Proof. unfold replace_tail. rewrite list_ascii_of_string_of_list_ascii. apply cut_at_incl. Qed.

Lemma strip_prefix_incl (p l r : list ascii) : strip_prefix p l = Some r -> incl r l.
Proof.
  revert l. induction p as [|c p IH]; intros [|d l] H; simpl in H;
    try discriminate.
  - injection H as <-. apply incl_refl.
  - injection H as <-. apply incl_refl.
  - destruct (is_char c d); [|discriminate]. apply incl_tl, (IH l H).
Qed.

Lemma until_bracket_incl (l w : list ascii) : until_bracket l = Some w -> incl w l.
Proof.
  revert w. induction l as [|c l IH]; intros w H; simpl in H; [discriminate|].
  destruct (is_char c "]"). { injection H as <-. intros ? []. }
  destruct (until_bracket l) as [w'|]; [|discriminate]. injection H as <-.
  apply incl_cons; [left; reflexivity|]. apply incl_tl, IH. reflexivity.
Qed.

Lemma requirements_at_incl (l cap : list ascii) : requirements_at l = Some cap -> incl cap l.
Proof.
  unfold requirements_at. intros H.
  destruct (strip_prefix _ l) as [r|] eqn:E1; [|discriminate].
  apply strip_prefix_incl in E1.
  destruct (drop_ws r) as [|c r'] eqn:E2; [discriminate|].
  assert (H2 : incl r' l).
  { intros x Hx. apply E1, drop_ws_incl. rewrite E2. right. exact Hx. }
  destruct (is_char c "="); [|discriminate].
  destruct (drop_ws r') as [|d r''] eqn:E3; [discriminate|].
  destruct (is_char d "["); [|discriminate].
  intros x Hx. apply H2, drop_ws_incl. rewrite E3. right.
  exact (until_bracket_incl r'' cap H x Hx).
Qed.

Lemma find_requirements_incl (l cap : list ascii) :
  find_requirements l = Some cap -> incl cap l.
Proof.
  induction l as [|c l IH]; simpl; [discriminate|].
  destruct (requirements_at (c :: l)) as [cap'|] eqn:E.
  - intros H. injection H as <-. exact (requirements_at_incl _ _ E).
  - intros H. apply incl_tl, IH, H.
Qed.

Lemma split_lf_incl (l w : list ascii) : In w (split_lf l) -> incl w l.
Proof.
  revert w. induction l as [|c l IH]; simpl; intros w Hw.
  - destruct Hw as [<- | []]. intros ? [].
  - destruct (is_char c LF).
    + destruct Hw as [<- | Hw]; [intros ? []|]. apply incl_tl, IH, Hw.
    + destruct (split_lf l) as [|w0 ws] eqn:E.
      * destruct Hw as [<- | []]. apply incl_cons; [left; reflexivity|]. intros ? [].
      * destruct Hw as [<- | Hw].
        -- apply incl_cons; [left; reflexivity|]. apply incl_tl, IH. left. reflexivity.
        -- apply incl_tl, IH. right. exact Hw.
Qed.

Lemma package_name_incl (line : string) :
  incl (list_ascii_of_string (package_name line)) (list_ascii_of_string line).
Proof.
  unfold package_name. intros c H.
  apply trim_incl, replace_tail_incl in H.
  rewrite list_ascii_of_string_of_list_ascii in H.
  apply cut_trailing_comma_incl in H. apply filter_In in H as [H _]. exact H.
Qed.

Lemma package_name_no_quote (line : string) c :
  In c (list_ascii_of_string (package_name line)) -> is_quote c = false.
Proof.
  unfold package_name. intros H.
  apply trim_incl, replace_tail_incl in H.
  rewrite list_ascii_of_string_of_list_ascii in H.
  apply cut_trailing_comma_incl in H. apply filter_In in H as [_ H].
  apply negb_true_iff in H. exact H.
Qed.

(** Every name [getPackageList] parses from [setup.py] is non-empty,
    has no leading or trailing white space, and holds no quote
    character. When the file has no carriage return, no name holds a
    [#] or a version-specifier character [> < = ! ~] either: the
    comment and the version specifier are cut off. The text is a
    string of 8-bit characters, so the other line terminators at which
    [.] stops in JavaScript, U+2028 and U+2029, do not occur in it. *)
Theorem parsed_package_names_clean (text : string) (names : list string)
    (Hparse : parse_requirements text = Some names) :
  forall n, In n names ->
    n <> "" /\ trim n = n
    /\ (forall c, In c (list_ascii_of_string n) -> is_quote c = false)
    /\ (no_cr (list_ascii_of_string text) = true ->
        forall c, In c (list_ascii_of_string n) -> is_hash c = false /\ is_op c = false).
Proof.
  unfold parse_requirements in Hparse.
  destruct (find_requirements (list_ascii_of_string text)) as [cap|] eqn:Ecap;
    [|discriminate].
  injection Hparse as <-. intros n Hn.
  apply filter_In in Hn as [Hn Htruthy].
  apply in_map_iff in Hn as [line [<- Hline]].
  apply filter_In in Hline as [Hline _].
  apply in_map_iff in Hline as [w [<- Hw]].
  split; [|split; [|split]].
  - intros E. rewrite E in Htruthy. discriminate.
  - unfold package_name. apply trim_idem.
  - apply package_name_no_quote.
  - intros Hcr c Hc.
    assert (Hwcr : no_cr w = true).
    { apply (no_cr_incl _ (list_ascii_of_string text)); [|exact Hcr].
      intros x Hx. apply (find_requirements_incl _ _ Ecap), (split_lf_incl cap w Hw), Hx. }
    split.
    + apply package_name_incl in Hc. unfold strip_comment in Hc.
      apply trim_incl in Hc. unfold replace_tail in Hc.
      rewrite !list_ascii_of_string_of_list_ascii in Hc.
      exact (cut_at_none is_hash w Hwcr c Hc).
    + set (line := strip_comment (string_of_list_ascii w)) in *.
      assert (Hlcr : no_cr (list_ascii_of_string line) = true).
      { apply (no_cr_incl _ w); [|exact Hwcr]. unfold line, strip_comment.
        intros x Hx. apply trim_incl, replace_tail_incl in Hx.
        rewrite list_ascii_of_string_of_list_ascii in Hx. exact Hx. }
      unfold package_name in Hc. apply trim_incl in Hc. unfold replace_tail in Hc.
      rewrite list_ascii_of_string_of_list_ascii in Hc.
      refine (cut_at_none is_op _ _ c Hc).
      rewrite list_ascii_of_string_of_list_ascii.
      apply (no_cr_incl _ (list_ascii_of_string line)); [|exact Hlcr].
      intros x Hx. apply cut_trailing_comma_incl in Hx.
      apply filter_In in Hx as [Hx _]. exact Hx.
Qed.

Definition sample_setup : string :=
  "from setuptools import setup" ++ nl ++ "REQUIREMENTS = [" ++ nl
  ++ "    " ++ Sse.dq ++ "pymatgen>=2024.1" ++ Sse.dq ++ ",  # core" ++ nl
  ++ "    # plotting" ++ nl ++ "    'ase'," ++ nl ++ "]" ++ nl.

Lemma parsed_package_names_clean_witness :
  parse_requirements sample_setup = Some ["pymatgen"; "ase"]
  /\ forall n, In n ["pymatgen"; "ase"] ->
       n <> "" /\ trim n = n
       /\ (forall c, In c (list_ascii_of_string n) -> is_quote c = false)
       /\ (no_cr (list_ascii_of_string sample_setup) = true ->
           forall c, In c (list_ascii_of_string n) -> is_hash c = false /\ is_op c = false).
Proof.
  assert (H : parse_requirements sample_setup = Some ["pymatgen"; "ase"])
    by (vm_compute; reflexivity).
  split; [exact H|]. exact (parsed_package_names_clean sample_setup _ H).
Defined.

(** A [setup.py] whose [REQUIREMENTS] list holds one quoted requirement
    per line: a name followed by an optional version specifier. *)
Definition quoted_requirement (req : string * string) : string :=
  Sse.dq ++ fst req ++ snd req ++ Sse.dq ++ ",".

Definition requirement_line (req : string * string) : string :=
  "    " ++ quoted_requirement req ++ nl.

Definition requirements_block (reqs : list (string * string)) (post : string) : string :=
  "REQUIREMENTS = [" ++ nl ++ String.concat "" (map requirement_line reqs) ++ "]" ++ post.

(** A name: no white space, quote, [#], version operator or [']']. *)
Definition name_char (c : ascii) : bool :=
  negb (is_js_ws c || is_quote c || is_hash c || is_op c || is_char c "]").

(** A version specifier: empty, or an operator first; no line break,
    quote, [#] or [']']. *)
Definition spec_char (c : ascii) : bool :=
  negb (is_char c LF || is_char c CR || is_quote c || is_hash c || is_char c "]").

Definition good_requirement (req : string * string) : bool :=
  match list_ascii_of_string (fst req) with [] => false | _ => true end
  && forallb name_char (list_ascii_of_string (fst req))
  && forallb spec_char (list_ascii_of_string (snd req))
  && match list_ascii_of_string (snd req) with [] => true | c :: _ => is_op c end.

Lemma cut_at_id p (l : list ascii) : forallb (fun c => negb (p c)) l = true -> cut_at p l = l.
Proof.
  induction l as [|c l IH]; simpl; [reflexivity|].
  intros H. apply andb_prop in H as [Hc Hl]. apply negb_true_iff in Hc.
  rewrite Hc. simpl. rewrite IH by exact Hl. reflexivity.
Qed.

Lemma cut_at_app p (w r : list ascii) :
  forallb (fun c => negb (p c)) w = true -> cut_at p (w ++ r) = (w ++ cut_at p r)%list.
Proof.
  induction w as [|c w IH]; simpl; [reflexivity|].
  intros H. apply andb_prop in H as [Hc Hw]. apply negb_true_iff in Hc.
  rewrite Hc. simpl. rewrite IH by exact Hw. reflexivity.
Qed.

Lemma cut_trailing_comma_snoc (w : list ascii) :
  cut_trailing_comma (w ++ [","]%char) = w.
Proof.
  induction w as [|c w IH]; [reflexivity|].
  simpl. rewrite IH.
  assert (Hf : forallb is_js_ws (w ++ [","]%char) = false).
  { rewrite forallb_app. simpl. rewrite andb_false_r. reflexivity. }
  rewrite Hf, andb_false_r. reflexivity.
Qed.

Lemma drop_ws_no_ws (l : list ascii) :
  forallb (fun c => negb (is_js_ws c)) l = true -> drop_ws l = l.
Proof.
  destruct l as [|c l]; simpl; [reflexivity|].
  intros H. apply andb_prop in H as [Hc _]. apply negb_true_iff in Hc. rewrite Hc.
  reflexivity.
Qed.

Lemma forallb_rev {A} (f : A -> bool) (l : list A) : forallb f (rev l) = forallb f l.
Proof.
  induction l as [|x l IH]; simpl; [reflexivity|].
  rewrite forallb_app, IH. simpl. rewrite andb_true_r, andb_comm. reflexivity.
Qed.

Lemma trim_no_ws (l : list ascii) :
  forallb (fun c => negb (is_js_ws c)) l = true -> trim (string_of_list_ascii l) = string_of_list_ascii l.
Proof.
  intros H. unfold trim. rewrite list_ascii_of_string_of_list_ascii.
  rewrite (drop_ws_no_ws l H), drop_ws_no_ws, rev_involutive; [reflexivity|].
  rewrite forallb_rev. exact H.
Qed.

Lemma forallb_impl {A} (f g : A -> bool) (l : list A) :
  (forall x, f x = true -> g x = true) -> forallb f l = true -> forallb g l = true.
Proof.
  intros Hfg. rewrite !forallb_forall. intros H x Hx. exact (Hfg x (H x Hx)).
Qed.

Lemma filter_all {A} (f : A -> bool) (l : list A) : forallb f l = true -> List.filter f l = l.
Proof.
  induction l as [|x l IH]; simpl; [reflexivity|].
  intros H. apply andb_prop in H as [Hx Hl]. rewrite Hx, IH by exact Hl. reflexivity.
Qed.

Lemma until_bracket_app (w r : list ascii) :
  forallb (fun c => negb (is_char c "]")) w = true -> until_bracket (w ++ "]"%char :: r) = Some w.
Proof.
  induction w as [|c w IH]; simpl; [reflexivity|].
  intros H. apply andb_prop in H as [Hc Hw]. apply negb_true_iff in Hc.
  rewrite Hc, IH by exact Hw. reflexivity.
Qed.

Lemma split_lf_app (w r : list ascii) :
  forallb (fun c => negb (is_char c LF)) w = true -> split_lf (w ++ LF :: r) = w :: split_lf r.
Proof.
  induction w as [|c w IH]; simpl; [reflexivity|].
  intros H. apply andb_prop in H as [Hc Hw]. apply negb_true_iff in Hc.
  rewrite Hc, IH by exact Hw. reflexivity.
Qed.

Lemma las_concat_map {A} (f : A -> string) (l : list A) :
  list_ascii_of_string (String.concat "" (map f l))
  = flat_map (fun x => list_ascii_of_string (f x)) l.
Proof.
  rewrite Sse.las_concat. induction l as [|x l IH]; simpl; [reflexivity|]. rewrite IH.
  reflexivity.
Qed.

Lemma name_char_props c : name_char c = true ->
  is_js_ws c = false /\ is_quote c = false /\ is_hash c = false /\ is_op c = false
  /\ is_char c "]" = false /\ is_char c LF = false.
Proof.
  destruct c as [[] [] [] [] [] [] [] []]; vm_compute; intros H; try discriminate;
    repeat split.
Qed.

Lemma spec_char_props c : spec_char c = true ->
  is_quote c = false /\ is_hash c = false /\ is_char c "]" = false
  /\ is_char c LF = false /\ is_char c CR = false.
Proof.
  destruct c as [[] [] [] [] [] [] [] []]; vm_compute; intros H; try discriminate;
    repeat split.
Qed.

Ltac from_props L Hyp :=
  refine (forallb_impl _ _ _ _ Hyp);
  let x := fresh in let H := fresh in
  intros x H; apply L in H; decompose record H; apply negb_true_iff; assumption.

Lemma requirement_line_split (req : string * string) :
  good_requirement req = true ->
  list_ascii_of_string (requirement_line req)
  = (list_ascii_of_string ("    " ++ quoted_requirement req) ++ [LF])%list
  /\ forallb (fun c => negb (is_char c LF))
       (list_ascii_of_string ("    " ++ quoted_requirement req)) = true
  /\ forallb (fun c => negb (is_char c "]")) (list_ascii_of_string (requirement_line req)) = true.
Proof.
  destruct req as [n v]. unfold good_requirement. cbn [fst snd].
  intros H. apply andb_prop in H as [H _]. apply andb_prop in H as [H Hv].
  apply andb_prop in H as [_ Hn].
  unfold requirement_line, quoted_requirement. cbn [fst snd].
  rewrite !Sse.las_app. split; [|split].
  - rewrite <- !app_assoc. reflexivity.
  - assert (H1 : forallb (fun c => negb (is_char c LF)) (list_ascii_of_string n) = true)
      by from_props name_char_props Hn.
    assert (H2 : forallb (fun c => negb (is_char c LF)) (list_ascii_of_string v) = true)
      by from_props spec_char_props Hv.
    rewrite !forallb_app, H1, H2. reflexivity.
  - assert (H1 : forallb (fun c => negb (is_char c "]")) (list_ascii_of_string n) = true)
      by from_props name_char_props Hn.
    assert (H2 : forallb (fun c => negb (is_char c "]")) (list_ascii_of_string v) = true)
      by from_props spec_char_props Hv.
    rewrite !forallb_app, H1, H2. reflexivity.
Qed.

Lemma prefix_dq (r : string) : String.prefix Sse.dq (Sse.dq ++ r) = true.
Proof. destruct r; reflexivity. Qed.

Lemma las_quoted_requirement (req : string * string) :
  list_ascii_of_string (quoted_requirement req)
  = ("034"%char :: list_ascii_of_string (fst req) ++ list_ascii_of_string (snd req)
     ++ ["034"; ","]%char)%list.
Proof. unfold quoted_requirement. rewrite !Sse.las_app. reflexivity. Qed.

Lemma good_requirement_chars (req : string * string) :
  good_requirement req = true ->
  list_ascii_of_string (fst req) <> []
  /\ forallb name_char (list_ascii_of_string (fst req)) = true
  /\ forallb spec_char (list_ascii_of_string (snd req)) = true
  /\ match list_ascii_of_string (snd req) with [] => true | c :: _ => is_op c end = true.
Proof.
  unfold good_requirement. intros H.
  apply andb_prop in H as [H Hop]. apply andb_prop in H as [H Hv].
  apply andb_prop in H as [Hne Hn].
  split; [|split; [exact Hn|split; [exact Hv|exact Hop]]].
  destruct (list_ascii_of_string (fst req)); [discriminate|]. discriminate.
Qed.

Lemma strip_comment_requirement (req : string * string) :
  good_requirement req = true ->
  strip_comment (string_of_list_ascii (list_ascii_of_string ("    " ++ quoted_requirement req)))
  = quoted_requirement req.
Proof.
  intros H. apply good_requirement_chars in H as (_ & Hn & Hv & _).
  rewrite string_of_list_ascii_of_string. unfold strip_comment, replace_tail.
  assert (Hh1 : forallb (fun c => negb (is_hash c)) (list_ascii_of_string (fst req)) = true)
    by from_props name_char_props Hn.
  assert (Hh2 : forallb (fun c => negb (is_hash c)) (list_ascii_of_string (snd req)) = true)
    by from_props spec_char_props Hv.
  rewrite Sse.las_app, las_quoted_requirement.
  rewrite cut_at_id
    by (rewrite forallb_app; cbn [forallb]; rewrite !forallb_app, Hh1, Hh2; reflexivity).
  unfold trim. rewrite list_ascii_of_string_of_list_ascii.
  set (mid := (list_ascii_of_string (fst req) ++ list_ascii_of_string (snd req)
               ++ ["034"%char])%list).
  assert (E : (list_ascii_of_string (fst req) ++ list_ascii_of_string (snd req)
               ++ ["034"; ","]%char)%list = (mid ++ [","%char])%list)
    by (unfold mid; rewrite <- !app_assoc; reflexivity).
  rewrite E.
  change (drop_ws (list_ascii_of_string "    " ++ "034"%char :: mid ++ [","%char])%list)
    with ("034"%char :: mid ++ [","%char])%list.
  cbn [rev]. rewrite rev_app_distr. cbn [rev app].
  change (drop_ws (","%char :: rev mid ++ ["034"%char])%list)
    with (","%char :: rev mid ++ ["034"%char])%list.
  cbn [rev]. rewrite rev_app_distr, rev_involutive. cbn [rev app].
  rewrite <- (string_of_list_ascii_of_string (quoted_requirement req)).
  rewrite las_quoted_requirement, E. reflexivity.
Qed.

Lemma package_name_requirement (req : string * string) :
  good_requirement req = true -> package_name (quoted_requirement req) = fst req.
Proof.
  intros H. apply good_requirement_chars in H as (_ & Hn & Hv & Hop).
  unfold package_name. rewrite las_quoted_requirement.
  assert (Hq1 : forallb (fun c => negb (is_quote c)) (list_ascii_of_string (fst req)) = true)
    by from_props name_char_props Hn.
  assert (Hq2 : forallb (fun c => negb (is_quote c)) (list_ascii_of_string (snd req)) = true)
    by from_props spec_char_props Hv.
  set (f := fun c => negb (is_quote c)).
  assert (Hf : List.filter f
                 ("034"%char :: (list_ascii_of_string (fst req) ++ list_ascii_of_string (snd req)
                  ++ ["034"; ","]%char)%list)
               = ((list_ascii_of_string (fst req) ++ list_ascii_of_string (snd req))
                 ++ [","%char])%list).
  { change (List.filter f ("034"%char :: (list_ascii_of_string (fst req)
              ++ list_ascii_of_string (snd req) ++ ["034"; ","]%char)%list))
      with (List.filter f (list_ascii_of_string (fst req)
              ++ list_ascii_of_string (snd req) ++ ["034"; ","]%char)%list).
    rewrite !List.filter_app, filter_all by exact Hq1. rewrite filter_all by exact Hq2.
    rewrite <- app_assoc. reflexivity. }
  rewrite Hf, cut_trailing_comma_snoc. unfold replace_tail.
  rewrite list_ascii_of_string_of_list_ascii.
  assert (Ho : forallb (fun c => negb (is_op c)) (list_ascii_of_string (fst req)) = true)
    by from_props name_char_props Hn.
  rewrite cut_at_app by exact Ho.
  assert (Hv0 : cut_at is_op (list_ascii_of_string (snd req)) = []).
  { destruct (list_ascii_of_string (snd req)) as [|o v'] eqn:Ev; [reflexivity|].
    simpl. rewrite Hop. simpl in Hv. apply andb_prop in Hv as [_ Hv'].
    assert (Hcr : no_cr v' = true).
    { unfold no_cr. refine (forallb_impl _ _ _ _ Hv'). intros x Hx.
      apply spec_char_props in Hx. decompose record Hx. apply negb_true_iff. assumption. }
    rewrite Hcr. reflexivity. }
  rewrite Hv0, app_nil_r, trim_no_ws by from_props name_char_props Hn.
  apply string_of_list_ascii_of_string.
Qed.

Lemma is_quoted_requirement (req : string * string) : is_quoted (quoted_requirement req) = true.
Proof. unfold is_quoted, quoted_requirement. rewrite prefix_dq. reflexivity. Qed.

(** The part of [parse_requirements] after the capture is split. *)
Definition parse_lines (lines : list (list ascii)) : list string :=
  List.filter truthy
    (map package_name
       (List.filter is_quoted
          (map (fun w => strip_comment (string_of_list_ascii w)) lines))).

Lemma parse_lines_app (a b : list (list ascii)) :
  parse_lines (a ++ b) = (parse_lines a ++ parse_lines b)%list.
Proof. unfold parse_lines. rewrite !map_app, !List.filter_app, map_app, List.filter_app. reflexivity. Qed.

Lemma parse_lines_cons (x : list ascii) (l : list (list ascii)) :
  parse_lines (x :: l) = (parse_lines [x] ++ parse_lines l)%list.
Proof. exact (parse_lines_app [x] l). Qed.

Lemma split_lf_requirements (reqs : list (string * string)) :
  forallb good_requirement reqs = true ->
  split_lf (flat_map (fun r => list_ascii_of_string (requirement_line r)) reqs)
  = (map (fun r => list_ascii_of_string ("    " ++ quoted_requirement r)) reqs ++ [[]])%list.
Proof.
  induction reqs as [|r reqs IH]; [reflexivity|].
  cbn [flat_map forallb map]. intros H. apply andb_prop in H as [Hr Hrs].
  destruct (requirement_line_split r Hr) as (E & Hlf & _).
  rewrite E, <- app_assoc. cbn [app]. rewrite split_lf_app by exact Hlf.
  rewrite IH by exact Hrs. reflexivity.
Qed.

Lemma parse_lines_requirements (reqs : list (string * string)) :
  forallb good_requirement reqs = true ->
  parse_lines (map (fun r => list_ascii_of_string ("    " ++ quoted_requirement r)) reqs)
  = map fst reqs.
Proof.
  induction reqs as [|r reqs IH]; [reflexivity|].
  cbn [map forallb]. intros H. apply andb_prop in H as [Hr Hrs].
  rewrite parse_lines_cons, IH by exact Hrs.
  unfold parse_lines. cbn [map]. rewrite strip_comment_requirement by exact Hr.
  cbn [List.filter]. rewrite is_quoted_requirement. cbn [map List.filter].
  rewrite package_name_requirement by exact Hr.
  destruct (good_requirement_chars r Hr) as (Hne & _).
  assert (Ht : truthy (fst r) = true).
  { unfold truthy. destruct (fst r); [contradiction Hne; reflexivity|reflexivity]. }
  rewrite Ht. reflexivity.
Qed.

Lemma find_requirements_header (X w : list ascii) :
  until_bracket X = Some w ->
  find_requirements (list_ascii_of_string "REQUIREMENTS = [" ++ X) = Some w.
Proof.
  intros H. cbn -[until_bracket].
  do 3 (repeat match goal with
               | |- context [is_js_ws ?c] =>
                   let b := eval vm_compute in (is_js_ws c) in change (is_js_ws c) with b
               end; cbn -[until_bracket]).
  rewrite H. reflexivity.
Qed.

(** A [setup.py] whose [REQUIREMENTS] list holds one requirement per
    line, written as [    "name<spec>",] where the name has no white
    space, quote, [#], version operator or [']'] and the specifier is
    empty or starts with a version operator (no line break, quote, [#]
    or [']']), parses to exactly the list of names, in order, whatever
    follows the closing bracket. *)
Theorem requirements_round_trip (reqs : list (string * string)) (post : string)
    (Hgood : forallb good_requirement reqs = true) :
  parse_requirements (requirements_block reqs post) = Some (map fst reqs).
Proof.
  unfold parse_requirements, requirements_block.
  rewrite !Sse.las_app, las_concat_map.
  rewrite (find_requirements_header _
             (LF :: flat_map (fun r => list_ascii_of_string (requirement_line r)) reqs)).
  - change (split_lf (LF :: flat_map (fun r => list_ascii_of_string (requirement_line r)) reqs))
      with ([] :: split_lf (flat_map (fun r => list_ascii_of_string (requirement_line r)) reqs)).
    rewrite split_lf_requirements by exact Hgood.
    fold (parse_lines ([] :: map (fun r => list_ascii_of_string ("    " ++ quoted_requirement r)) reqs ++ [[]])%list).
    rewrite parse_lines_cons, parse_lines_app, parse_lines_requirements by exact Hgood.
    rewrite app_nil_r. reflexivity.
  - change (list_ascii_of_string nl) with [LF].
    change (list_ascii_of_string "]" ++ list_ascii_of_string post)%list
      with ("]"%char :: list_ascii_of_string post).
    cbn [app]. rewrite app_comm_cons. apply until_bracket_app.
    cbn [forallb]. change (negb (is_char LF "]")) with true. cbn [andb].
    clear post. induction reqs as [|r reqs IH]; [reflexivity|].
    cbn [forallb] in Hgood. apply andb_prop in Hgood as [Hr Hrs].
    cbn [flat_map]. rewrite forallb_app, IH by exact Hrs.
    destruct (requirement_line_split r Hr) as (_ & _ & Hb). rewrite Hb. reflexivity.
Qed.

Lemma requirements_round_trip_witness :
  forallb good_requirement [("numpy", ">=1.24,<2"); ("mp-api", ""); ("ase", "~=3.22")] = true
  /\ parse_requirements
       (requirements_block [("numpy", ">=1.24,<2"); ("mp-api", ""); ("ase", "~=3.22")]
                           (nl ++ "setup(name=" ++ Sse.dq ++ "x" ++ Sse.dq ++ ")"))
     = Some ["numpy"; "mp-api"; "ase"].
Proof.
  assert (H : forallb good_requirement
                [("numpy", ">=1.24,<2"); ("mp-api", ""); ("ase", "~=3.22")] = true)
    by (vm_compute; reflexivity).
  split; [exact H|]. exact (requirements_round_trip _ _ H).
Defined.

(** A requirement line with a trailing comment, ended by [eol_str]. *)
Definition commented_text (n c : string) : string :=
  "    " ++ Sse.dq ++ n ++ Sse.dq ++ ",  # " ++ c.

Definition commented_line (eol_str n c : string) : string := commented_text n c ++ eol_str.

Definition commented_block (eol_str n c : string) : string :=
  "REQUIREMENTS = [" ++ eol_str ++ commented_line eol_str n c ++ "]".

Definition crlf : string := String CR nl.

(** A comment: no line break, quote, version operator or [']'], and a
    last character that is neither white space nor a comma. *)
Definition comment_char (c : ascii) : bool :=
  negb (is_char c LF || is_char c CR || is_quote c || is_op c || is_char c "]").

Definition good_comment (c : string) : bool :=
  forallb comment_char (list_ascii_of_string c)
  && match rev (list_ascii_of_string c) with
     | d :: _ => negb (is_js_ws d || is_char d ",")
     | [] => false
     end.

Lemma comment_char_props c : comment_char c = true ->
  is_quote c = false /\ is_op c = false /\ is_char c "]" = false
  /\ is_char c LF = false /\ is_char c CR = false.
Proof.
  destruct c as [[] [] [] [] [] [] [] []]; vm_compute; intros H; try discriminate;
    repeat split.
Qed.

Lemma drop_ws_ws_prefix (sp l : list ascii) :
  forallb is_js_ws sp = true -> drop_ws (sp ++ l) = drop_ws l.
Proof.
  induction sp as [|a sp IH]; simpl; [reflexivity|].
  intros H. apply andb_prop in H as [Ha Hs]. rewrite Ha. exact (IH Hs).
Qed.

(** [trim] of white space, a piece whose first and last characters are
    not white space, and white space. *)
Lemma trim_l_frame (sp core tl : list ascii) (x y : ascii) (r r' : list ascii) :
  forallb is_js_ws sp = true -> forallb is_js_ws tl = true ->
  core = x :: r -> rev core = y :: r' -> is_js_ws x = false -> is_js_ws y = false ->
  rev (drop_ws (rev (drop_ws (sp ++ core ++ tl)))) = core.
Proof.
  intros Hsp Htl Hx Hy Hxw Hyw.
  rewrite drop_ws_ws_prefix by exact Hsp.
  assert (E1 : drop_ws (core ++ tl) = (core ++ tl)%list)
    by (rewrite Hx; simpl; rewrite Hxw; reflexivity).
  rewrite E1, rev_app_distr, drop_ws_ws_prefix by (rewrite forallb_rev; exact Htl).
  rewrite Hy. simpl. rewrite Hyw. rewrite <- Hy. apply rev_involutive.
Qed.

Lemma parse_requirements_lines (text : string) :
  parse_requirements text
  = match find_requirements (list_ascii_of_string text) with
    | Some cap => Some (parse_lines (split_lf cap))
    | None => None
    end.
Proof. reflexivity. Qed.

Lemma cut_at_cr p (l : list ascii) : p CR = false -> cut_at p (l ++ [CR]) = (l ++ [CR])%list.
Proof.
  intros Hp. induction l as [|a l IH]; simpl.
  - rewrite Hp. reflexivity.
  - assert (E : no_cr (l ++ [CR]) = false)
      by (unfold no_cr; rewrite forallb_app, andb_false_iff; right; reflexivity).
    rewrite E, andb_false_r, IH. reflexivity.
Qed.

Lemma cut_trailing_comma_last (m : list ascii) (d : ascii) :
  is_js_ws d = false -> is_char d "," = false ->
  cut_trailing_comma (m ++ [d]) = (m ++ [d])%list.
Proof.
  intros Hw Hc. induction m as [|a m IH]; simpl.
  - rewrite Hc. reflexivity.
  - rewrite forallb_app. simpl. rewrite Hw, andb_false_r, andb_false_r, IH. reflexivity.
Qed.

Lemma prefix_dq_cons (rest : list ascii) :
  String.prefix Sse.dq (string_of_list_ascii ("034"%char :: rest)) = true.
Proof. exact (prefix_dq (string_of_list_ascii rest)). Qed.

Lemma parse_lines_quoted (w : list ascii) (req : string * string) :
  good_requirement req = true ->
  strip_comment (string_of_list_ascii w) = quoted_requirement req ->
  parse_lines [w] = [fst req].
Proof.
  intros Hr Hs. unfold parse_lines. cbn [map]. rewrite Hs.
  cbn [List.filter]. rewrite is_quoted_requirement. cbn [map List.filter].
  rewrite package_name_requirement by exact Hr.
  destruct (good_requirement_chars req Hr) as (Hne & _).
  assert (Ht : truthy (fst req) = true).
  { unfold truthy. destruct (fst req); [contradiction Hne; reflexivity|reflexivity]. }
  rewrite Ht. reflexivity.
Qed.

Lemma las_commented_text (n c : string) :
  list_ascii_of_string (commented_text n c)
  = (list_ascii_of_string "    " ++ "034"%char :: list_ascii_of_string n
     ++ ["034"; ","; " "; " "; "#"; " "]%char ++ list_ascii_of_string c)%list.
Proof. unfold commented_text. rewrite !Sse.las_app. reflexivity. Qed.

(** The facts about the name and the comment the proofs below use. *)
Lemma commented_chars (n c : string) :
  good_requirement (n, "") = true -> good_comment c = true ->
  (exists x r, list_ascii_of_string n = x :: r /\ is_js_ws x = false)
  /\ (exists d r, rev (list_ascii_of_string c) = d :: r
                  /\ is_js_ws d = false /\ is_char d "," = false)
  /\ forallb (fun x => negb (is_char x "]")) (list_ascii_of_string n) = true
  /\ forallb (fun x => negb (is_char x "]")) (list_ascii_of_string c) = true
  /\ forallb (fun x => negb (is_char x LF)) (list_ascii_of_string n) = true
  /\ forallb (fun x => negb (is_char x LF)) (list_ascii_of_string c) = true
  /\ forallb (fun x => negb (is_char x CR)) (list_ascii_of_string c) = true
  /\ forallb (fun x => negb (is_hash x)) (list_ascii_of_string n) = true
  /\ forallb (fun x => negb (is_quote x)) (list_ascii_of_string n) = true
  /\ forallb (fun x => negb (is_quote x)) (list_ascii_of_string c) = true
  /\ forallb (fun x => negb (is_op x)) (list_ascii_of_string n) = true
  /\ forallb (fun x => negb (is_op x)) (list_ascii_of_string c) = true.
Proof.
  intros Hr Hc. apply good_requirement_chars in Hr as (Hne & Hn & _ & _). cbn [fst] in *.
  unfold good_comment in Hc. apply andb_prop in Hc as [Hc Hlast].
  split; [|split].
  - destruct (list_ascii_of_string n) as [|x r] eqn:E; [contradiction Hne; reflexivity|].
    exists x, r. split; [reflexivity|]. simpl in Hn. apply andb_prop in Hn as [Hx _].
    apply name_char_props in Hx. decompose record Hx. assumption.
  - destruct (rev (list_ascii_of_string c)) as [|d r]; [discriminate|].
    exists d, r. split; [reflexivity|]. apply negb_true_iff, orb_false_iff in Hlast.
    exact Hlast.
  - repeat split;
      first [from_props name_char_props Hn | from_props comment_char_props Hc].
Qed.

(** With LF line endings a comment after a requirement is cut off; with
    CRLF line endings it is kept in the package name. The [#.*$] of
    [getPackageList] cannot cross the carriage return that
    [split("\n")] leaves at the end of each line ([.] does not match a
    line terminator), and [trim] removes that carriage return only
    afterwards. So [    "name",  # comment] yields [name] in a file
    with LF endings and [name,  # comment] in one with CRLF endings,
    for a non-empty name without white space, quote, [#], [']'] or
    version operator, and a non-empty comment without line break,
    quote, [']'] or version operator that does not end in white space
    or a comma. *)
Theorem crlf_comment_kept (n c : string)
    (Hn : good_requirement (n, "") = true) (Hc : good_comment c = true) :
  parse_requirements (commented_block nl n c) = Some [n]
  /\ parse_requirements (commented_block crlf n c) = Some [n ++ ",  # " ++ c].
Proof.
  destruct (commented_chars n c Hn Hc)
    as ([x [r [Ex Hx]]] & [d [r' [Ed [Hdw Hdc]]]] & Hbn & Hbc & Hln & Hlc & Hcc
        & Hhn & Hqn & Hqc & Hon & Hoc).
  set (L := list_ascii_of_string (commented_text n c)).
  assert (HbL : forallb (fun x => negb (is_char x "]")) L = true).
  { unfold L. rewrite las_commented_text, !forallb_app. cbn [forallb].
    rewrite !forallb_app, Hbn, Hbc. reflexivity. }
  assert (HlL : forallb (fun x => negb (is_char x LF)) L = true).
  { unfold L. rewrite las_commented_text, !forallb_app. cbn [forallb].
    rewrite !forallb_app, Hln, Hlc. reflexivity. }
  split.
  - rewrite parse_requirements_lines. unfold commented_block, commented_line.
    rewrite !Sse.las_app. fold L.
    change (list_ascii_of_string nl) with [LF].
    change (list_ascii_of_string "]") with ["]"%char].
    rewrite (find_requirements_header _ (LF :: L ++ [LF])%list).
    2:{ change ([LF] ++ (L ++ [LF]) ++ ["]"%char])%list
          with ((LF :: L ++ [LF]) ++ "]"%char :: [])%list.
        apply until_bracket_app.
        cbn [forallb]. rewrite forallb_app, HbL. reflexivity. }
    change (split_lf (LF :: L ++ [LF])%list) with ([] :: split_lf (L ++ [LF])%list).
    rewrite split_lf_app by exact HlL.
    rewrite parse_lines_cons.
    change (parse_lines [[]]) with (@nil string). cbn [app].
    rewrite parse_lines_cons. change (parse_lines (split_lf [])) with (@nil string).
    rewrite app_nil_r. f_equal.
    apply (parse_lines_quoted L (n, "") Hn).
    unfold strip_comment, replace_tail. rewrite list_ascii_of_string_of_list_ascii.
    unfold L. rewrite las_commented_text.
    assert (Hcut : cut_at is_hash
                     (list_ascii_of_string "    " ++ "034"%char :: list_ascii_of_string n
                      ++ ["034"; ","; " "; " "; "#"; " "]%char ++ list_ascii_of_string c)%list
                   = (list_ascii_of_string "    " ++ ("034"%char :: list_ascii_of_string n
                      ++ ["034"; ","]%char) ++ [" "; " "]%char)%list).
    { change (["034"; ","; " "; " "; "#"; " "]%char ++ list_ascii_of_string c)%list
        with (["034"; ","; " "; " "]%char ++ "#"%char :: " "%char :: list_ascii_of_string c)%list.
      rewrite app_comm_cons, !app_assoc, cut_at_app.
      - simpl. unfold no_cr. rewrite Hcc, app_nil_r, <- !app_assoc. reflexivity.
      - rewrite !forallb_app. cbn [forallb]. rewrite Hhn. reflexivity. }
    rewrite Hcut. unfold trim. rewrite list_ascii_of_string_of_list_ascii.
    rewrite (trim_l_frame _ _ _ "034"%char ","%char
               (list_ascii_of_string n ++ ["034"; ","]%char)%list
               (["034"]%char ++ rev (list_ascii_of_string n) ++ ["034"]%char)%list);
      [| reflexivity | reflexivity | reflexivity | | reflexivity | reflexivity].
    + rewrite <- (string_of_list_ascii_of_string (quoted_requirement (n, ""))).
      rewrite las_quoted_requirement. reflexivity.
    + cbn [rev]. rewrite rev_app_distr. reflexivity.
  - rewrite parse_requirements_lines. unfold commented_block, commented_line.
    rewrite !Sse.las_app. fold L.
    change (list_ascii_of_string crlf) with [CR; LF].
    change (list_ascii_of_string "]") with ["]"%char].
    rewrite (find_requirements_header _ (CR :: LF :: L ++ [CR; LF])%list).
    2:{ change ([CR; LF] ++ (L ++ [CR; LF]) ++ ["]"%char])%list
          with ((CR :: LF :: L ++ [CR; LF]) ++ "]"%char :: [])%list.
        apply until_bracket_app.
        cbn [forallb]. rewrite forallb_app, HbL. reflexivity. }
    change (split_lf (CR :: LF :: L ++ [CR; LF])%list)
      with ([CR] :: split_lf (L ++ [CR] ++ [LF])%list).
    rewrite app_assoc.
    rewrite split_lf_app
      by (rewrite forallb_app, HlL; reflexivity).
    rewrite parse_lines_cons.
    change (parse_lines [[CR]]) with (@nil string). cbn [app].
    rewrite parse_lines_cons. change (parse_lines (split_lf [])) with (@nil string).
    rewrite app_nil_r.
    set (core := ("034"%char :: list_ascii_of_string n
                  ++ ["034"; ","; " "; " "; "#"; " "]%char ++ list_ascii_of_string c)%list).
    assert (Hrc : rev core = d :: (r' ++ rev ["034"; ","; " "; " "; "#"; " "]%char
                   ++ rev (list_ascii_of_string n) ++ ["034"%char])%list).
    { unfold core. cbn [rev]. rewrite rev_app_distr, rev_app_distr, Ed.
      rewrite <- !app_assoc. reflexivity. }
    assert (Hstrip : strip_comment (string_of_list_ascii (L ++ [CR])) = string_of_list_ascii core).
    { unfold strip_comment, replace_tail. rewrite list_ascii_of_string_of_list_ascii.
      rewrite cut_at_cr by reflexivity. unfold trim.
      rewrite list_ascii_of_string_of_list_ascii. unfold L. rewrite las_commented_text.
      rewrite <- app_assoc. fold core.
      rewrite (trim_l_frame (list_ascii_of_string "    ") core [CR] "034"%char d
                 (list_ascii_of_string n ++ ["034"; ","; " "; " "; "#"; " "]%char
                  ++ list_ascii_of_string c)%list
                 (r' ++ rev ["034"; ","; " "; " "; "#"; " "]%char
                  ++ rev (list_ascii_of_string n) ++ ["034"%char])%list);
        try reflexivity; try assumption. }
    set (body := (list_ascii_of_string n ++ [","; " "; " "; "#"; " "]%char
                  ++ list_ascii_of_string c)%list).
    assert (Hpkg : package_name (string_of_list_ascii core) = n ++ ",  # " ++ c).
    { unfold package_name. rewrite list_ascii_of_string_of_list_ascii.
      assert (Hf : List.filter (fun x => negb (is_quote x)) core = body).
      { unfold core, body. change (List.filter (fun x => negb (is_quote x))
          ("034"%char :: list_ascii_of_string n
           ++ ["034"; ","; " "; " "; "#"; " "]%char ++ list_ascii_of_string c)%list)
          with (List.filter (fun x => negb (is_quote x))
                 (list_ascii_of_string n
                  ++ ["034"; ","; " "; " "; "#"; " "]%char ++ list_ascii_of_string c)%list).
        rewrite !List.filter_app, (filter_all _ (list_ascii_of_string n)) by exact Hqn.
        rewrite (filter_all _ (list_ascii_of_string c)) by exact Hqc.
        reflexivity. }
      assert (Eb : body = ((list_ascii_of_string n ++ [","; " "; " "; "#"; " "]%char
                            ++ rev r') ++ [d])%list).
      { unfold body. rewrite <- (rev_involutive (list_ascii_of_string c)), Ed.
        cbn [rev]. rewrite <- !app_assoc. reflexivity. }
      rewrite Hf, Eb, cut_trailing_comma_last, <- Eb by assumption.
      unfold replace_tail. rewrite list_ascii_of_string_of_list_ascii.
      rewrite cut_at_id.
      2:{ unfold body. rewrite !forallb_app, Hon, Hoc. reflexivity. }
      unfold trim. rewrite list_ascii_of_string_of_list_ascii.
      rewrite <- (app_nil_r body) at 1. rewrite <- (app_nil_l (body ++ [])%list).
      rewrite (trim_l_frame [] body [] x d
                 (r ++ [","; " "; " "; "#"; " "]%char ++ list_ascii_of_string c)%list
                 (r' ++ rev [","; " "; " "; "#"; " "]%char ++ rev (list_ascii_of_string n))%list);
        [ | reflexivity | reflexivity | | | exact Hx | exact Hdw ].
      - unfold body. rewrite <- (string_of_list_ascii_of_string (n ++ ",  # " ++ c)).
        rewrite !Sse.las_app. reflexivity.
      - unfold body. rewrite Ex. reflexivity.
      - unfold body. rewrite !rev_app_distr, Ed. rewrite <- !app_assoc. reflexivity. }
    unfold parse_lines. cbn [map]. rewrite Hstrip.
    cbn [List.filter]. unfold is_quoted. unfold core at 1. rewrite prefix_dq_cons.
    cbn [orb map List.filter]. rewrite Hpkg.
    assert (Ht : truthy (n ++ ",  # " ++ c) = true).
    { unfold truthy. rewrite <- (string_of_list_ascii_of_string n), Ex. reflexivity. }
    rewrite Ht. reflexivity.
Qed.

Lemma crlf_comment_kept_witness :
  good_requirement ("numpy", "") = true /\ good_comment "pinned below 2.0" = true
  /\ parse_requirements (commented_block nl "numpy" "pinned below 2.0") = Some ["numpy"]
  /\ parse_requirements (commented_block crlf "numpy" "pinned below 2.0")
     = Some ["numpy" ++ ",  # " ++ "pinned below 2.0"].
Proof.
  assert (Hn : good_requirement ("numpy", "") = true) by (vm_compute; reflexivity).
  assert (Hc : good_comment "pinned below 2.0" = true) by (vm_compute; reflexivity).
  split; [exact Hn|]. split; [exact Hc|]. exact (crlf_comment_kept _ _ Hn Hc).
Defined.

(** Whether the awaited response is [ok]. *)
Definition fetch_ok (f : Fetch) : bool :=
  match f with FetchResolved ok _ _ => ok | FetchRejected _ => false end.

(** The skill cache. A fresh entry is served without looking at the
    fetch. Otherwise a failed fetch (rejection or non-ok status) returns
    the fallback and leaves the cache as it was: a stale entry is kept
    but never served. A successful fetch returns the stripped text and
    caches it with the time read after the fetch; a later call less
    than [CACHE_TTL_MS] after that time returns the same text whatever
    its own fetch would give. *)
Theorem skill_cache (FALLBACK : string) (cache : option (CacheEntry string))
    (t0 t1 : Z) (f : Fetch) :
  (isFresh t0 cache = true ->
   exists e, cache = Some e /\ getSkillContent FALLBACK cache t0 f t1 = (value e, cache))
  /\ (isFresh t0 cache = false -> fetch_ok f = false ->
      getSkillContent FALLBACK cache t0 f t1 = (FALLBACK, cache))
  /\ (forall st raw, isFresh t0 cache = false -> f = FetchResolved true st raw ->
      getSkillContent FALLBACK cache t0 f t1
        = (stripFrontmatter raw, Some (mkEntry (stripFrontmatter raw) t1))
      /\ forall t2 t3 f', (t2 - t1 < CACHE_TTL_MS)%Z ->
           fst (getSkillContent FALLBACK (snd (getSkillContent FALLBACK cache t0 f t1)) t2 f' t3)
           = stripFrontmatter raw).
Proof.
  split; [|split].
  - destruct cache as [e|]; [|discriminate]. intros H. exists e. split; [reflexivity|].
    unfold getSkillContent. rewrite H. reflexivity.
  - intros Hs Hf. unfold getSkillContent.
    destruct cache as [e|]; [rewrite Hs|];
      destruct f as [m|[] st raw]; try reflexivity; discriminate.
  - intros st raw Hs ->.
    assert (E : getSkillContent FALLBACK cache t0 (FetchResolved true st raw) t1
                = (stripFrontmatter raw, Some (mkEntry (stripFrontmatter raw) t1))).
    { unfold getSkillContent. destruct cache as [e|]; [rewrite Hs|]; reflexivity. }
    split; [exact E|]. intros t2 t3 f' Ht. rewrite E. cbn [snd].
    unfold getSkillContent. cbn [isFresh fetchedAt].
    rewrite (proj2 (Z.ltb_lt _ _) Ht). reflexivity.
Qed.

(** The package cache, which [buildInstallScript] reads. As for the
    skill cache, a fresh entry is served, and a failure returns
    [FALLBACK_PACKAGES] and keeps the cache. A [setup.py] in which the
    [REQUIREMENTS] pattern does not match counts as a failure. When it
    matches, its parse is returned and cached, also when that parse is
    empty, and a call less than [CACHE_TTL_MS] later returns it again. *)
Theorem package_cache (cache : option (CacheEntry (list string))) (t0 t1 : Z) (f : Fetch) :
  (isFresh t0 cache = true ->
   exists e, cache = Some e /\ getPackageList cache t0 f t1 = (value e, cache))
  /\ (isFresh t0 cache = false -> fetch_ok f = false ->
      getPackageList cache t0 f t1 = (FALLBACK_PACKAGES, cache))
  /\ (forall st text, isFresh t0 cache = false -> f = FetchResolved true st text ->
      (find_requirements (list_ascii_of_string text) = None ->
       getPackageList cache t0 f t1 = (FALLBACK_PACKAGES, cache))
      /\ forall packages, parse_requirements text = Some packages ->
         getPackageList cache t0 f t1 = (packages, Some (mkEntry packages t1))
         /\ forall t2 t3 f', (t2 - t1 < CACHE_TTL_MS)%Z ->
              fst (getPackageList (snd (getPackageList cache t0 f t1)) t2 f' t3) = packages).
Proof.
  split; [|split].
  - destruct cache as [e|]; [|discriminate]. intros H. exists e. split; [reflexivity|].
    unfold getPackageList. rewrite H. reflexivity.
  - intros Hs Hf. unfold getPackageList.
    destruct cache as [e|]; [rewrite Hs|];
      destruct f as [m|[] st raw]; try reflexivity; discriminate.
  - intros st text Hs ->.
    assert (E : getPackageList cache t0 (FetchResolved true st text) t1
                = match parse_requirements text with
                  | Some packages => (packages, Some (mkEntry packages t1))
                  | None => (FALLBACK_PACKAGES, cache)
                  end).
    { unfold getPackageList. destruct cache as [e|]; [rewrite Hs|]; reflexivity. }
    split.
    + intros Hn. rewrite E. unfold parse_requirements. rewrite Hn. reflexivity.
    + intros packages Hp. rewrite E, Hp. split; [reflexivity|].
      intros t2 t3 f' Ht. cbn [snd fst]. unfold getPackageList. cbn [isFresh fetchedAt].
      rewrite (proj2 (Z.ltb_lt _ _) Ht). reflexivity.
Qed.

Lemma skill_cache_witness :
  isFresh 7200000 (Some (mkEntry "old" 0)) = false /\ fetch_ok (FetchRejected "timeout") = false
  /\ getSkillContent "fallback" (Some (mkEntry "old" 0)) 7200000 (FetchRejected "timeout") 7200001
     = ("fallback", Some (mkEntry "old" 0)).
Proof.
  assert (Hs : isFresh 7200000 (Some (mkEntry "old" 0)) = false) by reflexivity.
  assert (Hf : fetch_ok (FetchRejected "timeout") = false) by reflexivity.
  split; [exact Hs|]. split; [exact Hf|].
  exact (proj1 (proj2 (skill_cache "fallback" _ _ 7200001 _)) Hs Hf).
Defined.

Lemma package_cache_witness :
  isFresh 5000000 (Some (mkEntry ["ase"] 0)) = false
  /\ parse_requirements ("REQUIREMENTS = [" ++ nl ++ "]") = Some []
  /\ getPackageList (Some (mkEntry ["ase"] 0)) 5000000
       (FetchResolved true 200 ("REQUIREMENTS = [" ++ nl ++ "]")) 5000010
     = ([], Some (mkEntry [] 5000010)).
Proof.
  assert (Hs : isFresh 5000000 (Some (mkEntry ["ase"] 0)) = false) by reflexivity.
  assert (Hp : parse_requirements ("REQUIREMENTS = [" ++ nl ++ "]") = Some [])
    by (vm_compute; reflexivity).
  split; [exact Hs|]. split; [exact Hp|].
  exact (proj1 (proj2 (proj2 (proj2 (package_cache _ _ 5000010 _)) 200%Z _ Hs eq_refl) [] Hp)).
Defined.

Lemma strip_dashes_app (l t : list ascii) :
  strip_prefix dashes l = None -> strip_prefix dashes (l ++ LF :: t) = None.
Proof.
  destruct l as [|a [|b [|d l]]]; intros H; cbn in *;
    repeat match goal with |- context [if ?b then _ else _] => destruct b end;
    try reflexivity; discriminate.
Qed.

Lemma fence_at_cr_lf (t : list ascii) : fence_at (CR :: LF :: t) = fence_at (LF :: t).
Proof. destruct t; reflexivity. Qed.

Lemma find_fence_app (l t : list ascii) :
  no_dash_line l = true -> find_fence (l ++ LF :: t) = find_fence (LF :: t).
Proof.
  induction l as [|c l IH]; intros H; [reflexivity|].
  cbn [no_dash_line] in H. apply andb_true_iff in H as [Hc Hl].
  change (find_fence ((c :: l) ++ LF :: t))
    with (match fence_at (c :: l ++ LF :: t) with
          | Some r => Some r | None => find_fence (l ++ LF :: t) end).
  rewrite (IH Hl).
  destruct (is_char c LF) eqn:ELF.
  - apply Ascii.eqb_eq in ELF; subst c.
    destruct (strip_prefix dashes l) eqn:Ed; [discriminate|].
    assert (E : fence_at (LF :: l ++ LF :: t) = None).
    { unfold fence_at.
      assert (Ee : eol (LF :: app l (LF :: t)) = Some (app l (LF :: t)))
        by (destruct l; reflexivity).
      rewrite Ee, (strip_dashes_app _ _ Ed). reflexivity. }
    rewrite E. reflexivity.
  - destruct (is_char c CR) eqn:ECR.
    + apply Ascii.eqb_eq in ECR; subst c. destruct l as [|d l].
      * cbn [app]. rewrite fence_at_cr_lf.
        change (find_fence (LF :: t))
          with (match fence_at (LF :: t) with
                | Some r => Some r | None => find_fence t end).
        destruct (fence_at (LF :: t)); reflexivity.
      * cbn [no_dash_line] in Hl. apply andb_true_iff in Hl as [Hd _].
        unfold fence_at. cbn [app eol].
        assert (ECR' : is_char CR CR = true) by reflexivity.
        rewrite ECR'. cbn [andb].
        destruct (is_char d LF) eqn:EdL; [|reflexivity].
        destruct (strip_prefix dashes l) eqn:Ed; [discriminate|].
        rewrite (strip_dashes_app _ _ Ed). reflexivity.
    + assert (E : fence_at (c :: l ++ LF :: t) = None).
      { unfold fence_at. destruct l as [|d l]; cbn [app eol];
          rewrite ECR, ELF; reflexivity. }
      rewrite E. reflexivity.
Qed.

Lemma find_fence_none (l : list ascii) : no_dash_line l = true -> find_fence l = None.
Proof.
  induction l as [|c l IH]; intros H; [reflexivity|].
  cbn [no_dash_line] in H. apply andb_true_iff in H as [Hc Hl].
  change (find_fence (c :: l))
    with (match fence_at (c :: l) with
          | Some r => Some r | None => find_fence l end).
  rewrite (IH Hl).
  unfold fence_at.
  destruct l as [|d l]; cbn [eol].
  - destruct (is_char c LF); reflexivity.
  - destruct (is_char c CR && is_char d LF) eqn:E1.
    + apply andb_true_iff in E1 as [_ EdL].
      cbn [no_dash_line] in Hl. apply andb_true_iff in Hl as [Hd _].
      rewrite EdL in Hd. destruct (strip_prefix dashes l); [discriminate|reflexivity].
    + destruct (is_char c LF) eqn:ELF; [|reflexivity].
      destruct (strip_prefix dashes (d :: l)); [discriminate|reflexivity].
Qed.

Lemma las_frontmatter (fm body : string) :
  list_ascii_of_string ("---" ++ nl ++ fm ++ nl ++ "---" ++ nl ++ body)
  = (dashes ++ LF :: list_ascii_of_string fm ++ LF :: dashes ++ LF :: list_ascii_of_string body)%list.
Proof. rewrite !Sse.las_app. reflexivity. Qed.

Lemma las_empty_frontmatter (body : string) :
  list_ascii_of_string ("---" ++ nl ++ "---" ++ nl ++ body)
  = (dashes ++ LF :: dashes ++ LF :: list_ascii_of_string body)%list.
Proof. rewrite !Sse.las_app. reflexivity. Qed.

(** [stripFrontmatter] on a leading [---] block. A block
    [---\n fm \n---\n] is removed and the rest is trimmed at its start,
    provided no line of [fm] after its first starts with [---] (the lazy
    [[\s\S]*?] stops at the first such line). An empty block
    [---\n---\n] is not recognised: when no line of the body starts
    with [---] either, the text is returned unchanged, block included. *)
Theorem strip_frontmatter_block (fm body : string)
    (Hfm : no_dash_line (list_ascii_of_string fm) = true) :
  stripFrontmatter ("---" ++ nl ++ fm ++ nl ++ "---" ++ nl ++ body) = trimStart body
  /\ (no_dash_line (LF :: list_ascii_of_string body) = true ->
      stripFrontmatter ("---" ++ nl ++ "---" ++ nl ++ body)
      = "---" ++ nl ++ "---" ++ nl ++ body).
Proof.
  split.
  - unfold stripFrontmatter. rewrite las_frontmatter.
    set (B := list_ascii_of_string body). set (F := list_ascii_of_string fm).
    assert (E1 : (strip_prefix dashes (dashes ++ LF :: F ++ LF :: dashes ++ LF :: B)
                  = Some (LF :: F ++ LF :: dashes ++ LF :: B))%list) by reflexivity.
    rewrite E1.
    assert (E2 : (eol (LF :: F ++ LF :: dashes ++ LF :: B) = Some (F ++ LF :: dashes ++ LF :: B))%list)
      by (destruct F; reflexivity).
    rewrite E2, (find_fence_app _ _ Hfm).
    assert (E3 : (find_fence (LF :: dashes ++ LF :: B) = Some B)%list) by (destruct B; reflexivity).
    rewrite E3. unfold B. rewrite string_of_list_ascii_of_string. reflexivity.
  - intros Hb. unfold stripFrontmatter. rewrite las_empty_frontmatter.
    set (B := list_ascii_of_string body).
    assert (E1 : (strip_prefix dashes (dashes ++ LF :: dashes ++ LF :: B)
                  = Some (LF :: dashes ++ LF :: B))%list) by reflexivity.
    rewrite E1.
    assert (E2 : (eol (LF :: dashes ++ LF :: B) = Some (dashes ++ LF :: B))%list) by reflexivity.
    rewrite E2.
    assert (E3 : (no_dash_line (dashes ++ LF :: B) = no_dash_line (LF :: B))%list) by reflexivity.
    rewrite (find_fence_none _ (eq_trans E3 Hb)). reflexivity.
Qed.

Lemma strip_frontmatter_block_witness :
  no_dash_line (list_ascii_of_string ("name: spinel" ++ nl ++ "tags:" ++ nl ++ "  - xrd")) = true
  /\ stripFrontmatter ("---" ++ nl ++ ("name: spinel" ++ nl ++ "tags:" ++ nl ++ "  - xrd")
                       ++ nl ++ "---" ++ nl ++ (nl ++ "# Skills"))
     = trimStart (nl ++ "# Skills")
  /\ stripFrontmatter ("---" ++ nl ++ "---" ++ nl ++ (nl ++ "# Skills"))
     = "---" ++ nl ++ "---" ++ nl ++ (nl ++ "# Skills").
Proof.
  assert (Hfm : no_dash_line (list_ascii_of_string
                  ("name: spinel" ++ nl ++ "tags:" ++ nl ++ "  - xrd")) = true)
    by (vm_compute; reflexivity).
  assert (Hb : no_dash_line (LF :: list_ascii_of_string (nl ++ "# Skills")) = true)
    by (vm_compute; reflexivity).
  destruct (strip_frontmatter_block _ (nl ++ "# Skills") Hfm) as [H1 H2].
  split; [exact Hfm|]. split; [exact H1|]. exact (H2 Hb).
Defined.

End Plugin.

(* ------------------------------------------------------------------ *)
(** ** [buildInstallScript] (storage.ts, 91-106)

    The Python script run in a new [spinel] sandbox when there is no
    custom template; its package list comes from [getPackageList]. *)

Module Install.
Import Plugin.

Definition dq := Sse.dq.

(** [`    "${p}"`]. *)
Definition install_entry (p : string) : string := "    " ++ dq ++ p ++ dq.

(** The text before [${packageList}]. *)
Definition install_head : string :=
  nl ++ "import subprocess, sys" ++ nl ++ "packages = [" ++ nl.

(** The text after [${packageList},] and its line feed. *)
Definition install_rest : string :=
  "]" ++ nl
  ++ "for pkg in packages:" ++ nl
  ++ "    try:" ++ nl
  ++ "        __import__(pkg.replace(" ++ dq ++ "-" ++ dq ++ ", " ++ dq ++ "_" ++ dq
  ++ ").replace(" ++ dq ++ "." ++ dq ++ ", " ++ dq ++ "_" ++ dq ++ "))" ++ nl
  ++ "    except ImportError:" ++ nl
  ++ "        subprocess.check_call([sys.executable, " ++ dq ++ "-m" ++ dq ++ ", "
  ++ dq ++ "pip" ++ dq ++ ", " ++ dq ++ "install" ++ dq ++ ", " ++ dq ++ "-q" ++ dq
  ++ ", pkg])" ++ nl
  ++ "print(" ++ dq ++ "Spinel packages ready" ++ dq ++ ")" ++ nl.

Definition install_script (packages : list string) : string :=
  let packageList := join ("," ++ nl) (map install_entry packages) in
  install_head ++ packageList ++ "," ++ nl ++ install_rest.

(** [await getPackageList()], then the template; the package cache is
    threaded through. *)
Definition buildInstallScript (packageCache : option (CacheEntry (list string)))
    (t0 : Z) (f : Fetch) (t1 : Z) : string * option (CacheEntry (list string)) :=
  let '(packages, packageCache') := getPackageList packageCache t0 f t1 in
  (install_script packages, packageCache').

(** One line [    "p",] of the list literal. *)
Definition install_line (p : string) : string := install_entry p ++ "," ++ nl.

Lemma join_terminated (sep : string) (l : list string) :
  l <> [] -> join sep l ++ sep = String.concat "" (map (fun x => x ++ sep) l).
Proof.
  intros Hl. induction l as [|x l IH]; [congruence|].
  destruct l as [|y l].
  - cbn [map String.concat]. reflexivity.
  - change (join sep (x :: y :: l)) with (x ++ sep ++ join sep (y :: l)).
    change (String.concat "" (map (fun x0 => x0 ++ sep) (x :: y :: l)))
      with ((x ++ sep) ++ "" ++ String.concat "" (map (fun x0 => x0 ++ sep) (y :: l))).
    rewrite <- (IH ltac:(discriminate)).
    rewrite !str_app_assoc. reflexivity.
Qed.

(** The package list literal of the install script: with at least one
    package, each package stands on a line of its own as [    "p",];
    with none, the literal is [[], a line holding only [,], and [\]],
    which Python rejects as a syntax error. This happens when the
    package cache holds an empty list, which [getPackageList] returns
    and caches for a [setup.py] whose [REQUIREMENTS] list has no quoted
    entry. *)
Theorem install_script_layout (packages : list string) :
  (packages <> [] ->
   install_script packages
   = install_head ++ String.concat "" (map install_line packages) ++ install_rest)
  /\ install_script [] = install_head ++ "," ++ nl ++ install_rest
  /\ (forall cache t0 st text t1,
        isFresh t0 cache = false -> parse_requirements text = Some [] ->
        buildInstallScript cache t0 (FetchResolved true st text) t1
        = (install_head ++ "," ++ nl ++ install_rest, Some (mkEntry [] t1))).
Proof.
  split; [|split].
  - intros Hp. unfold install_script. cbv zeta. f_equal.
    rewrite <- (str_app_assoc "," nl install_rest),
      <- (str_app_assoc (join ("," ++ nl) (map install_entry packages)) ("," ++ nl)).
    rewrite (join_terminated ("," ++ nl) (map install_entry packages))
      by (destruct packages; [congruence | discriminate]).
    rewrite map_map. reflexivity.
  - reflexivity.
  - intros cache t0 st text t1 Hs Hp. unfold buildInstallScript.
    unfold getPackageList. cbv zeta. rewrite Hp.
    destruct cache as [e|]; [rewrite Hs|]; reflexivity.
Qed.

Lemma install_script_layout_witness :
  install_script ["ase"; "mp-api"]
  = install_head ++ String.concat "" (map install_line ["ase"; "mp-api"]) ++ install_rest
  /\ parse_requirements "REQUIREMENTS = []" = Some []
  /\ buildInstallScript None 0 (FetchResolved true 200 "REQUIREMENTS = []") 10
     = (install_head ++ "," ++ nl ++ install_rest, Some (mkEntry [] 10)).
Proof.
  destruct (install_script_layout ["ase"; "mp-api"]) as [H1 [_ H3]].
  assert (Hp : parse_requirements "REQUIREMENTS = []" = Some []) by (vm_compute; reflexivity).
  split; [apply H1; discriminate|]. split; [exact Hp|].
  apply H3; [reflexivity | exact Hp].
Defined.

End Install.

(* ------------------------------------------------------------------ *)
(** ** [closeSandbox] beside [getOrCreateSandbox] (storage.ts, 108-142
    and 185-192) *)

Module Close.
Import Pool.

(** A call of [closeSandbox] in progress: not yet started; suspended at
    [await sandbox.kill()] with the sandbox it read from the map; or
    returned. *)
Inductive CloseCall :=
  | CEntered (sessionId : string) (m : SandboxMode)
  | CKilling (sessionId : string) (m : SandboxMode) (sandbox : nat)
  | CDone.

(** The pool, and the sandboxes on which [kill()] has been called, the
    latest first. *)
Record World := mkWorld { pool : PoolSt; kill_requested : list nat }.

Inductive Op := Acquire (c : Call) | Release (c : CloseCall).

(** Run a [closeSandbox] call up to its next [await]: the [get], and
    the [kill()] request when a sandbox is registered; on resumption,
    the [delete]. *)
Definition close_step (w : World) (c : CloseCall) : World * CloseCall :=
  match c with
  | CEntered sid m =>
      match activeSandboxes (pool w) !! key sid m with
      | Some sb => (mkWorld (pool w) (sb :: kill_requested w), CKilling sid m sb)
      | None => (w, CDone)
      end
  | CKilling sid m sb =>
      (mkWorld (mkPool (delete (key sid m) (activeSandboxes (pool w))) (created (pool w)))
               (kill_requested w), CDone)
  | CDone => (w, CDone)
  end.

Definition op_step (w : World) (o : Op) : World * Op :=
  match o with
  | Acquire c => let '(p', c') := step (pool w) c in (mkWorld p' (kill_requested w), Acquire c')
  | Release c => let '(w', c') := close_step w c in (w', Release c')
  end.

Fixpoint run_ops (w : World) (os : list Op) (sched : list nat) : World * list Op :=
  match sched with
  | [] => (w, os)
  | i :: rest =>
      match os !! i with
      | None => run_ops w os rest
      | Some o => let '(w', o') := op_step w o in run_ops w' (<[i := o']> os) rest
      end
  end.

(** The call concerns the map entry [k] (a returned call concerns
    none). *)
Definition op_about (k : string) (o : Op) : bool :=
  match o with
  | Acquire (Entered s m) | Acquire (Creating s m _)
  | Release (CEntered s m) | Release (CKilling s m _) => bool_decide (key s m = k)
  | Acquire (Returned _) | Release CDone => true
  end.

Lemma las_key (s : string) (m : SandboxMode) :
  list_ascii_of_string (key s m)
  = (list_ascii_of_string s ++ list_ascii_of_string ("-" ++ mode_str m))%list.
Proof. unfold key. apply Sse.las_app. Qed.

(** Sandbox keys of different sessions or modes differ. *)
Lemma key_inj (s1 s2 : string) (m1 m2 : SandboxMode) :
  key s1 m1 = key s2 m2 -> s1 = s2 /\ m1 = m2.
Proof.
  intros E. apply (f_equal list_ascii_of_string) in E. rewrite !las_key in E.
  destruct m1, m2.
  - split; [|reflexivity]. apply app_inv_tail in E.
    rewrite <- (string_of_list_ascii_of_string s1), <- (string_of_list_ascii_of_string s2), E.
    reflexivity.
  - exfalso. apply (f_equal (fun l => head (rev l))) in E.
    rewrite !rev_app_distr in E. discriminate.
  - exfalso. apply (f_equal (fun l => head (rev l))) in E.
    rewrite !rev_app_distr in E. discriminate.
  - split; [|reflexivity]. apply app_inv_tail in E.
    rewrite <- (string_of_list_ascii_of_string s1), <- (string_of_list_ascii_of_string s2), E.
    reflexivity.
Qed.

Lemma op_step_other (k k' : string) (w : World) (o : Op) :
  op_about k o = true -> k' <> k ->
  activeSandboxes (pool (fst (op_step w o))) !! k' = activeSandboxes (pool w) !! k'
  /\ op_about k (snd (op_step w o)) = true.
Proof.
  intros Ho Hk.
  destruct o as [[s m|s m sb|sb]|[s m|s m sb|]]; cbn [op_about] in Ho;
    try (apply bool_decide_eq_true in Ho; subst k).
  - cbn. destruct (activeSandboxes (pool w) !! key s m); cbn;
      [split; [reflexivity | exact eq_refl] | split; [reflexivity|]].
    apply bool_decide_eq_true. reflexivity.
  - cbn. split; [|exact eq_refl]. apply lookup_insert_ne. congruence.
  - cbn. split; reflexivity.
  - cbn. destruct (activeSandboxes (pool w) !! key s m); cbn;
      [split; [reflexivity|] | split; reflexivity].
    apply bool_decide_eq_true. reflexivity.
  - cbn. split; [|exact eq_refl]. apply lookup_delete_ne. congruence.
  - cbn. split; reflexivity.
Qed.

Lemma run_ops_other (k k' : string) (sched : list nat) :
  forall (w : World) (os : list Op),
  Forall (fun o => op_about k o = true) os -> k' <> k ->
  activeSandboxes (pool (fst (run_ops w os sched))) !! k' = activeSandboxes (pool w) !! k'.
Proof.
  induction sched as [|i rest IH]; intros w os Hos Hk; [reflexivity|].
  cbn [run_ops]. destruct (os !! i) as [o|] eqn:Ei; [|apply IH; assumption].
  pose proof (Forall_lookup_1 _ _ _ _ Hos Ei) as Ho. cbn beta in Ho.
  destruct (op_step_other k k' w o Ho Hk) as [H1 H2].
  destruct (op_step w o) as [w' o'] eqn:Es. cbn [fst snd] in H1, H2.
  rewrite IH; [exact H1| |exact Hk]. apply Forall_insert; assumption.
Qed.

(** The key [`${sessionId}-${mode}`] separates sessions and modes: two
    different (session, mode) pairs never share a key, so whatever
    interleaving of [getOrCreateSandbox] and [closeSandbox] calls for
    one pair leaves the map entry of every other pair as it was. *)
Theorem sandbox_isolation (sid sid' : string) (m m' : SandboxMode)
    (w : World) (os : list Op) (sched : list nat)
    (Hos : Forall (fun o => op_about (key sid m) o = true) os)
    (Hne : (sid', m') <> (sid, m)) :
  key sid' m' <> key sid m
  /\ activeSandboxes (pool (fst (run_ops w os sched))) !! key sid' m'
     = activeSandboxes (pool w) !! key sid' m'.
Proof.
  assert (Hk : key sid' m' <> key sid m).
  { intros E. apply key_inj in E as [-> ->]. apply Hne. reflexivity. }
  split; [exact Hk|]. exact (run_ops_other _ _ sched w os Hos Hk).
Qed.

Definition two_sessions : World :=
  mkWorld (mkPool (<[key "s2" spinel := 0]> ∅) 1) [].

Lemma sandbox_isolation_witness :
  Forall (fun o => op_about (key "s1" spinel) o = true)
    [Acquire (Entered "s1" spinel); Release (CEntered "s1" spinel)]
  /\ ("s2", spinel) <> ("s1", spinel)
  /\ key "s2" spinel <> key "s1" spinel
  /\ activeSandboxes (pool (fst (run_ops two_sessions
        [Acquire (Entered "s1" spinel); Release (CEntered "s1" spinel)] [0; 1; 0; 1])))
       !! key "s2" spinel
     = activeSandboxes (pool two_sessions) !! key "s2" spinel.
Proof.
  assert (Hos : Forall (fun o => op_about (key "s1" spinel) o = true)
                  [Acquire (Entered "s1" spinel); Release (CEntered "s1" spinel)]).
  { repeat (constructor; [vm_compute; reflexivity|]). constructor. }
  assert (Hne : ("s2", spinel) <> ("s1", spinel)) by discriminate.
  split; [exact Hos|]. split; [exact Hne|].
  exact (sandbox_isolation "s1" "s2" spinel spinel two_sessions _ [0; 1; 0; 1] Hos Hne).
Defined.

Definition finished (o : Op) : Prop :=
  o = Release CDone \/ exists sb, o = Acquire (Returned sb).

Lemma run_ops_finished (w : World) (rest : list nat) :
  forall os, Forall finished os -> run_ops w os rest = (w, os).
Proof.
  destruct w as [p ks].
  induction rest as [|i rest IH]; intros os Hos; [reflexivity|].
  cbn [run_ops]. destruct (os !! i) as [o|] eqn:Ei; [|apply IH; exact Hos].
  destruct (Forall_lookup_1 _ _ _ _ Hos Ei) as [->|[sb ->]]; cbn [op_step close_step step];
    rewrite list_insert_id by exact Ei; apply IH; exact Hos.
Qed.

Lemma finished_done_returned (sb : nat) : Forall finished [Release CDone; Acquire (Returned sb)].
Proof.
  constructor; [left; reflexivity|]. constructor; [right; eexists; reflexivity|]. constructor.
Qed.

Lemma finished_done_done : Forall finished [Release CDone; Release CDone].
Proof. constructor; [left; reflexivity|]. constructor; [left; reflexivity|]. constructor. Qed.

Lemma finished_done_only : Forall finished [Release CDone].
Proof. constructor; [left; reflexivity|]. constructor. Qed.

(** A close suspended at [kill()] beside a returned acquire: the close
    finishes the first time it is scheduled. *)
Lemma killing_run (w : World) (sid : string) (m : SandboxMode) (sb : nat) (rest : list nat) :
  run_ops w [Release (CKilling sid m sb); Acquire (Returned sb)] rest
  = if existsb (Nat.eqb 0) rest
    then (fst (close_step w (CKilling sid m sb)), [Release CDone; Acquire (Returned sb)])
    else (w, [Release (CKilling sid m sb); Acquire (Returned sb)]).
Proof.
  destruct w as [p ks].
  induction rest as [|i rest IH]; [reflexivity|].
  destruct i as [|[|i]].
  - simpl. rewrite run_ops_finished by apply finished_done_returned. reflexivity.
  - simpl in *. exact IH.
  - simpl in *. exact IH.
Qed.

(** [closeSandbox] against [getOrCreateSandbox], whatever is scheduled
    after the steps named. Closing a pair with no registered sandbox
    does nothing. When sandbox [sb] is registered: closing and then
    acquiring kills [sb], creates a new sandbox and registers it (the
    new one differs from [sb] as long as every registered sandbox was
    created before); an acquire that runs while the close is suspended
    at [await sandbox.kill()] returns [sb], whose kill is under way, and
    once the close resumes the entry is deleted, so the caller holds a
    sandbox the map no longer tracks; and two overlapping closes that
    both read the map before either deletes, in either order and
    resumed in either order, both call [kill()] on [sb]. *)
Theorem close_and_acquire (p : PoolSt) (ks : list nat) (sid : string) (m : SandboxMode) :
  (activeSandboxes p !! key sid m = None -> forall rest,
   run_ops (mkWorld p ks) [Release (CEntered sid m)] (0 :: rest)
   = (mkWorld p ks, [Release CDone]))
  /\ (forall sb, activeSandboxes p !! key sid m = Some sb ->
      (forall rest,
       let '(w, os) := run_ops (mkWorld p ks)
                         [Release (CEntered sid m); Acquire (Entered sid m)]
                         (0 :: 0 :: 1 :: 1 :: rest) in
       os = [Release CDone; Acquire (Returned (created p))]
       /\ activeSandboxes (pool w) !! key sid m = Some (created p)
       /\ kill_requested w = sb :: ks
       /\ ((forall k s, activeSandboxes p !! k = Some s -> s < created p) -> created p <> sb))
      /\ (forall rest,
          let '(w, os) := run_ops (mkWorld p ks)
                            [Release (CEntered sid m); Acquire (Entered sid m)]
                            (0 :: 1 :: rest) in
          os !! 1 = Some (Acquire (Returned sb))
          /\ kill_requested w = sb :: ks
          /\ (existsb (Nat.eqb 0) rest = true ->
              os !! 0 = Some (Release CDone)
              /\ activeSandboxes (pool w) !! key sid m = None))
      /\ (forall i j k l rest,
          (i = 0 /\ j = 1) \/ (i = 1 /\ j = 0) ->
          (k = 0 /\ l = 1) \/ (k = 1 /\ l = 0) ->
          let '(w, os) := run_ops (mkWorld p ks)
                            [Release (CEntered sid m); Release (CEntered sid m)]
                            (i :: j :: k :: l :: rest) in
          os = [Release CDone; Release CDone]
          /\ activeSandboxes (pool w) !! key sid m = None
          /\ kill_requested w = sb :: sb :: ks)).
Proof.
  split.
  - intros E rest. cbn [run_ops lookup list_lookup op_step close_step pool]. rewrite E.
    cbn. apply run_ops_finished, finished_done_only.
  - intros sb E. split; [|split].
    + intros rest. cbn. rewrite E. cbn. rewrite lookup_delete_eq. cbn.
      rewrite run_ops_finished by apply finished_done_returned.
      split; [reflexivity|]. split; [apply lookup_insert_eq|]. split; [reflexivity|].
      intros Hlt Heq. specialize (Hlt _ _ E). lia.
    + intros rest. cbn. rewrite E. cbn. rewrite E. cbn.
      rewrite killing_run.
      destruct (existsb (Nat.eqb 0) rest) eqn:Er; cbn.
      * split; [reflexivity|]. split; [reflexivity|]. intros _.
        split; [reflexivity | apply lookup_delete_eq].
      * split; [reflexivity|]. split; [reflexivity|]. intros H. simpl in Er. congruence.
    + intros i j k l rest Hij Hkl.
      destruct Hij as [[-> ->]|[-> ->]], Hkl as [[-> ->]|[-> ->]];
        cbn; rewrite E; cbn; rewrite E; cbn;
        (rewrite run_ops_finished by apply finished_done_done);
        (split; [reflexivity|]); (split; [|reflexivity]);
        rewrite delete_delete_eq; apply lookup_delete_eq.
Qed.

Definition one_session : PoolSt := mkPool (<[key "s1" spinel := 0]> ∅) 1.

Lemma close_and_acquire_witness :
  activeSandboxes one_session !! key "s1" spinel = Some 0
  /\ (let '(w, os) := run_ops (mkWorld one_session [])
                        [Release (CEntered "s1" spinel); Release (CEntered "s1" spinel)]
                        [1; 0; 0; 1] in
      os = [Release CDone; Release CDone]
      /\ activeSandboxes (pool w) !! key "s1" spinel = None
      /\ kill_requested w = [0; 0]).
Proof.
  assert (E : activeSandboxes one_session !! key "s1" spinel = Some 0)
    by (vm_compute; reflexivity).
  split; [exact E|].
  exact (proj2 (proj2 (proj2 (close_and_acquire one_session [] "s1" spinel) 0 E))
           1 0 0 1 [] (or_intror (conj eq_refl eq_refl)) (or_introl (conj eq_refl eq_refl))).
Defined.

End Close.

(* ------------------------------------------------------------------ *)
(** ** [getPrisma] (db.ts, 38-54) *)

Module Prisma.

(** The environment variables [getPrisma] reads. *)
Record Env := mkEnv { DATABASE_URL : option string; NODE_ENV : option string }.

(** [globalForPrisma.prisma], and the number of [new PrismaClient()]
    made so far (the [n]-th one is client [n]). *)
Record PrismaSt := mkPrismaSt { prisma : option nat; clients : nat }.

Definition getPrisma (env : Env) (st : PrismaSt) : option nat * PrismaSt :=
  if negb (truthy_opt (DATABASE_URL env)) then (None, st) else
  match prisma st with
  | Some c => (Some c, st)
  | None =>
      let client := clients st in
      let st' := mkPrismaSt (prisma st) (S (clients st)) in
      if negb (bool_decide (NODE_ENV env = Some "production"))
      then (Some client, mkPrismaSt (Some client) (clients st'))
      else (Some client, st')
  end.

(** [n] calls in a row. *)
Fixpoint calls (n : nat) (env : Env) (st : PrismaSt) : list (option nat) * PrismaSt :=
  match n with
  | O => ([], st)
  | S n' =>
      let '(r, st') := getPrisma env st in
      let '(rs, st'') := calls n' env st' in (r :: rs, st'')
  end.

Lemma calls_cached (n : nat) (env : Env) (st : PrismaSt) (c : nat) :
  truthy_opt (DATABASE_URL env) = true -> prisma st = Some c ->
  calls n env st = (repeat (Some c) n, st).
Proof.
  intros Hu Hc. induction n as [|n IH]; [reflexivity|].
  cbn [calls]. unfold getPrisma at 1. rewrite Hu, Hc. cbn [negb]. rewrite IH. reflexivity.
Qed.

(** [getPrisma] is a singleton only outside production. Without a
    truthy [DATABASE_URL] it returns [null] and makes no client. With
    one, from no cached client: outside production the first call makes
    a client and every later call returns it; in production nothing is
    cached, so [n] calls make [n] different clients. *)
Theorem getPrisma_calls (n : nat) (env : Env) (st : PrismaSt) :
  (truthy_opt (DATABASE_URL env) = false -> calls n env st = (repeat None n, st))
  /\ (prisma st = None -> truthy_opt (DATABASE_URL env) = true -> NODE_ENV env <> Some "production" -> 0 < n ->
      calls n env st
      = (repeat (Some (clients st)) n, mkPrismaSt (Some (clients st)) (S (clients st))))
  /\ (prisma st = None -> truthy_opt (DATABASE_URL env) = true -> NODE_ENV env = Some "production" ->
      calls n env st = (map Some (seq (clients st) n), mkPrismaSt None (clients st + n))).
Proof.
  split; [|split].
  - intros Hu. induction n as [|n IH]; [reflexivity|].
    cbn [calls]. unfold getPrisma at 1. rewrite Hu. cbn [negb]. rewrite IH. reflexivity.
  - intros Hst Hu Hp Hn. destruct n as [|n]; [lia|].
    cbn [calls]. unfold getPrisma at 1. rewrite Hu, Hst.
    rewrite (bool_decide_eq_false_2 _ Hp). cbv zeta. cbn [negb clients prisma].
    rewrite (calls_cached n env (mkPrismaSt (Some (clients st)) (S (clients st))) (clients st) Hu eq_refl).
    reflexivity.
  - intros Hst Hu Hp. destruct st as [g k]. cbn [prisma clients] in *. subst g.
    revert k. induction n as [|n IH]; intros k.
    + cbn. rewrite Nat.add_0_r. reflexivity.
    + cbn [calls]. unfold getPrisma at 1. rewrite Hu. cbn [prisma clients].
      rewrite (bool_decide_eq_true_2 _ Hp). cbn [negb].
      rewrite IH. cbn. rewrite Nat.add_succ_r. reflexivity.
Qed.

Lemma getPrisma_calls_witness :
  prisma (mkPrismaSt None 0) = None
  /\ truthy_opt (DATABASE_URL (mkEnv (Some "postgres://db") (Some "production"))) = true
  /\ NODE_ENV (mkEnv (Some "postgres://db") (Some "production")) = Some "production"
  /\ calls 3 (mkEnv (Some "postgres://db") (Some "production")) (mkPrismaSt None 0)
     = ([Some 0; Some 1; Some 2], mkPrismaSt None 3).
Proof.
  assert (Hst : prisma (mkPrismaSt None 0) = None) by reflexivity.
  assert (Hu : truthy_opt (DATABASE_URL (mkEnv (Some "postgres://db") (Some "production")))
               = true) by (vm_compute; reflexivity).
  assert (Hp : NODE_ENV (mkEnv (Some "postgres://db") (Some "production")) = Some "production")
    by reflexivity.
  split; [exact Hst|]. split; [exact Hu|]. split; [exact Hp|].
  exact (proj2 (proj2 (getPrisma_calls 3 _ _)) Hst Hu Hp).
Defined.

End Prisma.

(* ------------------------------------------------------------------ *)
(** ** The panel updates of [streamChat] (part_001, 201-247)

    Each parsed non-[done] event is pushed onto the shared array
    [blocks], and an updater is queued with [setMessages]; React runs
    the queued updaters later, in order, and each copies [blocks] as it
    is when it runs. A failure queues an updater appending an error
    message. *)

Module Panel.
Local Open Scope list_scope.

Inductive Role := user | assistant.

Section Updates.

Variable Block : Type.

(** [{ type: "error", content: error.message }]. *)
Variable error_block : string -> Block.

Record ChatMessage := mkMsg { role : Role; blocks : list Block }.

(** The parsed [data] of one frame. *)
Inductive Data := DataDone | DataBlock (b : Block).

Inductive Updater := ReplaceOrAdd | AppendError (message : string).

(** The updater of lines 222-234, run with the current [blocks]. *)
Definition replace_or_add (cur : list Block) (prev : list ChatMessage) : list ChatMessage :=
  match last prev with
  | Some msg =>
      match role msg with
      | assistant => <[List.length prev - 1 := mkMsg assistant cur]> prev
      | user => prev ++ [mkMsg assistant cur]
      end
  | None => prev ++ [mkMsg assistant cur]
  end.

(** The shared [blocks] array, the updaters React has queued, and the
    panel's messages. *)
Record Client := mkClient { shared : list Block; queued : list Updater;
                            messages : list ChatMessage }.

Definition run_updater (c : Client) (u : Updater) : Client :=
  match u with
  | ReplaceOrAdd => mkClient (shared c) (queued c) (replace_or_add (shared c) (messages c))
  | AppendError msg =>
      mkClient (shared c) (queued c)
               (messages c ++ [mkMsg assistant [error_block msg]])
  end.

(** React runs the queued updaters in order. *)
Definition flush (c : Client) : Client :=
  let c' := fold_left run_updater (queued c) c in
  mkClient (shared c') [] (messages c').

(** Lines 218-234 for one parsed frame. *)
Definition on_data (c : Client) (d : Data) : Client :=
  match d with
  | DataDone => c
  | DataBlock b => mkClient (shared c ++ [b]) (queued c ++ [ReplaceOrAdd]) (messages c)
  end.

(** The frames in order, each followed by a render of React when its
    flag is set. *)
Definition consume (c : Client) (items : list (Data * bool)) : Client :=
  fold_left (fun (c : Client) (item : Data * bool) =>
               let '(d, render) := item in
               let c' := on_data c d in if render then flush c' else c')
    items c.

(** Lines 238-244. *)
Definition fail (c : Client) (message : string) : Client :=
  mkClient (shared c) (queued c ++ [AppendError message]) (messages c).

Definition blocks_of (items : list (Data * bool)) : list Block :=
  flat_map (fun item : Data * bool =>
              match fst item with DataBlock b => [b] | DataDone => [] end) items.

(** The panel after [prev] with the blocks [cur] of this response. *)
Definition shown (prev : list ChatMessage) (cur : list Block) : list ChatMessage :=
  match cur with [] => prev | _ => prev ++ [mkMsg assistant cur] end.

Definition not_assistant_last (prev : list ChatMessage) : Prop :=
  match last prev with Some msg => role msg = user | None => True end.

Section Prev.

Variable prev : list ChatMessage.
Hypothesis Hprev : not_assistant_last prev.

Lemma replace_or_add_prev (cur : list Block) :
  replace_or_add cur prev = prev ++ [mkMsg assistant cur].
Proof.
  unfold replace_or_add. unfold not_assistant_last in Hprev.
  destruct (last prev) as [msg|]; [rewrite Hprev|]; reflexivity.
Qed.

Lemma replace_or_add_shown (cur X : list Block) :
  replace_or_add cur (prev ++ [mkMsg assistant X]) = prev ++ [mkMsg assistant cur].
Proof.
  unfold replace_or_add. rewrite last_snoc. cbn [role].
  rewrite length_app. cbn [length]. rewrite Nat.add_sub.
  rewrite insert_app_r_alt by lia. rewrite Nat.sub_diag. reflexivity.
Qed.

(** What the panel can show while the response streams. *)
Definition shows (msgs : list ChatMessage) : Prop :=
  msgs = prev \/ exists X, msgs = prev ++ [mkMsg assistant X].

Lemma run_replace_or_add_all (us : list Updater) (c : Client) :
  Forall (fun u => u = ReplaceOrAdd) us -> us <> [] -> shows (messages c) ->
  messages (fold_left run_updater us c) = prev ++ [mkMsg assistant (shared c)]
  /\ shared (fold_left run_updater us c) = shared c.
Proof.
  revert c. induction us as [|u us IH]; intros c Hall Hne Hs; [congruence|].
  inversion Hall as [|? ? Hu Hrest]; subst u.
  cbn [fold_left].
  assert (Hstep : messages (run_updater c ReplaceOrAdd) = prev ++ [mkMsg assistant (shared c)]).
  { cbn. destruct Hs as [-> | [X ->]];
      [apply replace_or_add_prev | apply replace_or_add_shown]. }
  destruct us as [|u' us'].
  - cbn. split; [exact Hstep | reflexivity].
  - destruct (IH (run_updater c ReplaceOrAdd) Hrest ltac:(discriminate)) as [H1 H2].
    + right. exists (shared c). exact Hstep.
    + split; [exact H1 | exact H2].
Qed.

(** The invariant of [consume]: only [ReplaceOrAdd] updaters are
    queued, a non-empty queue means some block was pushed, and with an
    empty queue the panel shows the pushed blocks. *)
Definition inv (c : Client) : Prop :=
  Forall (fun u => u = ReplaceOrAdd) (queued c)
  /\ (queued c <> [] -> shared c <> [] /\ shows (messages c))
  /\ (queued c = [] -> messages c = shown prev (shared c)).

Lemma flush_inv (c : Client) :
  inv c -> messages (flush c) = shown prev (shared c) /\ shared (flush c) = shared c
           /\ queued (flush c) = [].
Proof.
  intros [Hall [Hne Hemp]]. unfold flush. cbn [messages shared queued].
  destruct (queued c) as [|u us] eqn:Eq.
  - cbn. split; [exact (Hemp eq_refl) | split; reflexivity].
  - destruct (Hne ltac:(discriminate)) as [Hb Hs].
    destruct (run_replace_or_add_all (u :: us) c Hall ltac:(discriminate) Hs) as [H1 H2].
    rewrite H1, H2. split; [|split; reflexivity].
    destruct (shared c); [congruence | reflexivity].
Qed.

Lemma consume_inv (items : list (Data * bool)) :
  forall c, inv c ->
  inv (consume c items) /\ shared (consume c items) = shared c ++ blocks_of items.
Proof.
  induction items as [|[d r] items IH]; intros c Hc.
  - split; [exact Hc|]. cbn. rewrite app_nil_r. reflexivity.
  - unfold consume. cbn [fold_left]. fold (consume (if r then flush (on_data c d) else on_data c d) items).
    assert (Hd : inv (on_data c d) /\ shared (on_data c d) = shared c ++ blocks_of [(d, r)]).
    { destruct d as [|b]; cbn.
      - split; [exact Hc | rewrite app_nil_r; reflexivity].
      - destruct Hc as [Hall [Hne Hemp]]. split; [|reflexivity].
        split; [apply Forall_app; split; [exact Hall | constructor; [reflexivity | constructor]]|].
        split; [|intros H; destruct (queued c); discriminate].
        intros _. split; [destruct (shared c); discriminate|].
        destruct (queued c) as [|u us] eqn:Eq.
        + rewrite (Hemp eq_refl). unfold shown, shows.
          destruct (shared c); [left; reflexivity | right; eexists; reflexivity].
        + exact (proj2 (Hne ltac:(discriminate))). }
    destruct Hd as [Hd Hsd].
    assert (Hr : inv (if r then flush (on_data c d) else on_data c d)
                 /\ shared (if r then flush (on_data c d) else on_data c d)
                    = shared c ++ blocks_of [(d, r)]).
    { destruct r; [|split; assumption].
      destruct (flush_inv _ Hd) as [H1 [H2 H3]].
      split; [|rewrite H2; exact Hsd].
      split; [rewrite H3; constructor|]. split; [rewrite H3; congruence|].
      intros _. rewrite H1, H2. reflexivity. }
    destruct Hr as [Hr Hsr].
    destruct (IH _ Hr) as [H1 H2]. split; [exact H1|].
    rewrite H2, Hsr, <- app_assoc. destruct d; reflexivity.
Qed.

Lemma fold_run_updater_queued (us : list Updater) :
  forall (c : Client) (q : list Updater),
  fold_left run_updater us (mkClient (shared c) q (messages c))
  = mkClient (shared (fold_left run_updater us c)) q (messages (fold_left run_updater us c)).
Proof.
  induction us as [|u us IH]; intros c q; [reflexivity|].
  cbn [fold_left]. rewrite <- IH. destruct u; reflexivity.
Qed.

(** After the last frame, once React has run the queued updaters, the
    panel shows [prev] followed by one assistant message holding every
    parsed non-[done] block in order (nothing is added when there is
    none), whatever the points at which React rendered in between: an
    updater that runs late copies the blocks pushed after it was
    queued, and each one replaces the assistant message the previous
    one added. On a failure after some frames, the error comes as a
    second assistant message after the partial one. *)
Theorem stream_panel (items : list (Data * bool)) (message : string) :
  messages (flush (consume (mkClient [] [] prev) items)) = shown prev (blocks_of items)
  /\ messages (flush (fail (consume (mkClient [] [] prev) items) message))
     = shown prev (blocks_of items) ++ [mkMsg assistant [error_block message]].
Proof.
  assert (H0 : inv (mkClient [] [] prev)).
  { split; [constructor|]. split; [intros H; exfalso; apply H; reflexivity|]. intros _. reflexivity. }
  destruct (consume_inv items _ H0) as [Hc Hs]. cbn [shared app] in Hs.
  set (c := consume (mkClient [] [] prev) items) in *.
  destruct (flush_inv c Hc) as [Hf _]. rewrite Hs in Hf.
  split; [exact Hf|].
  unfold flush, fail. cbn [queued messages shared]. rewrite fold_left_app. cbn [fold_left].
  rewrite fold_run_updater_queued.
  unfold flush in Hf. cbn [messages] in Hf. cbn [run_updater messages]. rewrite Hf.
  reflexivity.
Qed.

End Prev.

End Updates.

Arguments mkMsg {Block} role blocks.
Arguments DataDone {Block}.
Arguments DataBlock {Block} b.
Arguments mkClient {Block} shared queued messages.

Definition user_turn : list (ChatMessage string) := [mkMsg user ["hi"]].

Definition frames : list (Data string * bool) :=
  [(DataBlock "a", false); (DataBlock "b", true); (DataDone, false); (DataBlock "c", false)].

Lemma stream_panel_witness :
  not_assistant_last string user_turn
  /\ messages string (flush string (fun m => m) (consume string (fun m => m) (mkClient [] [] user_turn) frames))
     = user_turn ++ [mkMsg assistant ["a"; "b"; "c"]]
  /\ messages string (flush string (fun m => m)
       (fail string (consume string (fun m => m) (mkClient [] [] user_turn) frames) "reset"))
     = user_turn ++ [mkMsg assistant ["a"; "b"; "c"]; mkMsg assistant ["reset"]].
Proof.
  assert (H : not_assistant_last string user_turn) by reflexivity.
  destruct (stream_panel string (fun m => m) user_turn H frames "reset") as [H1 H2].
  split; [exact H|]. split; [exact H1|]. exact H2.
Defined.

End Panel.

(* ------------------------------------------------------------------ *)
(** ** [fileToBase64] (part_001, 143-153)

    [reader.readAsDataURL(file)] yields [data:<type>;base64,<payload>];
    the page keeps [result.split(",")[1]]. *)

Module Upload.

(** [s.split(c)] for a one-character separator. *)
Fixpoint split_char (c : ascii) (l : list ascii) : list (list ascii) :=
  match l with
  | [] => [[]]
  | x :: r =>
      if Ascii.eqb x c then [] :: split_char c r
      else match split_char c r with
           | w :: ws => (x :: w) :: ws
           | [] => [[x]]
           end
  end.

(** [result.split(",")[1]]; [None] is [undefined]. *)
Definition fileToBase64 (result : string) : option string :=
  option_map string_of_list_ascii (nth_error (split_char ","%char (list_ascii_of_string result)) 1).

Definition data_url (type payload : string) : string :=
  "data:" ++ type ++ ";base64," ++ payload.

(** The base64 alphabet, with the padding [=]. *)
Definition base64_char (c : ascii) : bool :=
  let n := nat_of_ascii c in
  (Nat.leb 65 n && Nat.leb n 90) || (Nat.leb 97 n && Nat.leb n 122)
  || (Nat.leb 48 n && Nat.leb n 57) || Nat.eqb n 43 || Nat.eqb n 47 || Nat.eqb n 61.

Definition no_comma (l : list ascii) : bool := forallb (fun x => negb (Ascii.eqb x ","%char)) l.

Definition data_prefix : list ascii := ["d"; "a"; "t"; "a"; ":"]%char.
Definition base64_marker : list ascii := [";"; "b"; "a"; "s"; "e"; "6"; "4"]%char.

Lemma las_data_url (type payload : string) :
  list_ascii_of_string (data_url type payload)
  = ((data_prefix ++ list_ascii_of_string type ++ base64_marker)
     ++ ","%char :: list_ascii_of_string payload)%list.
Proof.
  unfold data_url. rewrite !Sse.las_app, <- !app_assoc. reflexivity.
Qed.

Lemma split_char_none (l : list ascii) : no_comma l = true -> split_char ","%char l = [l].
Proof.
  induction l as [|x l IH]; intros H; [reflexivity|].
  cbn [no_comma forallb] in H. apply andb_true_iff in H as [Hx Hl].
  apply negb_true_iff in Hx. cbn [split_char]. rewrite Hx, (IH Hl). reflexivity.
Qed.

Lemma split_char_first (l r : list ascii) :
  no_comma l = true -> split_char ","%char (l ++ ","%char :: r)%list = l :: split_char ","%char r.
Proof.
  induction l as [|x l IH]; intros H; [reflexivity|].
  cbn [no_comma forallb] in H. apply andb_true_iff in H as [Hx Hl].
  apply negb_true_iff in Hx. cbn [split_char app]. rewrite Hx.
  change ((l ++ ","%char :: r)%list) with (app l (","%char :: r)). rewrite (IH Hl). reflexivity.
Qed.

Lemma base64_no_comma (l : list ascii) : forallb base64_char l = true -> no_comma l = true.
Proof.
  induction l as [|x l IH]; intros H; [reflexivity|].
  cbn [forallb] in H. apply andb_true_iff in H as [Hx Hl].
  specialize (IH Hl). unfold no_comma in *. cbn [forallb]. rewrite IH, andb_true_r.
  destruct (Ascii.eqb x ","%char) eqn:E; [|reflexivity].
  apply Ascii.eqb_eq in E. subst x. discriminate.
Qed.

(** [fileToBase64] returns the payload of the data URL when the MIME
    type has no comma: base64 text never holds one, so the payload is
    exactly the second piece. A single comma inside the type shifts
    the split: the result is then the rest of the type after it up to
    [;base64], never the payload. *)
Theorem fileToBase64_payload (type payload : string)
    (Hp : forallb base64_char (list_ascii_of_string payload) = true) :
  (no_comma (list_ascii_of_string type) = true ->
   fileToBase64 (data_url type payload) = Some payload)
  /\ (forall a b, type = a ++ "," ++ b -> no_comma (list_ascii_of_string a) = true ->
      no_comma (list_ascii_of_string b) = true ->
      fileToBase64 (data_url type payload) = Some (b ++ ";base64")
      /\ Some (b ++ ";base64") <> Some payload).
Proof.
  pose proof (base64_no_comma _ Hp) as Hpc.
  split.
  - intros Ht. unfold fileToBase64. rewrite las_data_url, split_char_first.
    + rewrite (split_char_none _ Hpc). cbn [nth_error option_map].
      rewrite string_of_list_ascii_of_string. reflexivity.
    + unfold no_comma. rewrite !forallb_app. unfold no_comma in Ht. rewrite Ht. reflexivity.
  - intros a b -> Ha Hb. unfold fileToBase64. rewrite las_data_url.
    assert (E : app data_prefix (app (list_ascii_of_string (a ++ "," ++ b)) base64_marker)
                = app (app data_prefix (list_ascii_of_string a))
                    (","%char :: app (list_ascii_of_string b) base64_marker)).
    { rewrite !Sse.las_app, <- !app_assoc. reflexivity. }
    rewrite E, <- app_assoc. cbn [app].
    rewrite split_char_first, split_char_first, (split_char_none _ Hpc).
    + cbn [nth_error option_map].
      assert (Eb : app (list_ascii_of_string b) base64_marker
                   = list_ascii_of_string (b ++ ";base64"))
        by (rewrite Sse.las_app; reflexivity).
      rewrite Eb, string_of_list_ascii_of_string. split; [reflexivity|].
      intros Heq. injection Heq as Heq. rewrite <- Heq, Sse.las_app, forallb_app in Hp.
      apply andb_true_iff in Hp as [_ Hp]. discriminate Hp.
    + unfold no_comma. rewrite forallb_app. unfold no_comma in Hb. rewrite Hb. reflexivity.
    + unfold no_comma. rewrite forallb_app. unfold no_comma in Ha. rewrite Ha. reflexivity.
Qed.

Lemma fileToBase64_payload_witness :
  forallb base64_char (list_ascii_of_string "AAEC/w==") = true
  /\ no_comma (list_ascii_of_string "chemical/x-cif") = true
  /\ fileToBase64 (data_url "chemical/x-cif" "AAEC/w==") = Some "AAEC/w==".
Proof.
  assert (Hp : forallb base64_char (list_ascii_of_string "AAEC/w==") = true)
    by (vm_compute; reflexivity).
  assert (Ht : no_comma (list_ascii_of_string "chemical/x-cif") = true)
    by (vm_compute; reflexivity).
  split; [exact Hp|]. split; [exact Ht|].
  exact (proj1 (fileToBase64_payload "chemical/x-cif" _ Hp) Ht).
Defined.

End Upload.
